(** * Conway's Game of Life on the GPU: the compute kernel and its driver

    A shallow embedding of [conway.cpp]: the GLSL compute shader
    ([computeShaderSource]), the ping-pong texture pair of [GridVisualizer],
    [initializeGrid] and [computeStep].

    Conventions.
    - An R8 texture is a size and a row-major list of 8-bit texels, the layout
      [glTexSubImage2D] uploads from.
    - GLSL [int] is a 32-bit two's complement integer held in [Z], with the
      wrap-around of [+] written out ([wrap32]).
    - A GLSL [float] read from an R8 image is the exact rational [v/255]; the
      only floats the kernel produces are [0.0] and [1.0] and the only float
      operation is the comparison with [0.5], which is exact on these values.
    - The invocations of one dispatch run in an unspecified order; a dispatch
      is modelled as the kernel folded over a list of invocation ids, and the
      results are proved for every such list. *)

From Stdlib Require Import ZArith List Lia Bool QArith Qround.
From stdpp Require Import base list.
Import ListNotations.

Local Open Scope Z_scope.

(** ** Compile-time configuration *)

Definition WIDTH : Z := 2000.
Definition HEIGHT : Z := 2000.

(** ** GLSL integers and [ivec2] *)

Definition ivec2 : Type := (Z * Z)%type.

Definition wrap32 (z : Z) : Z := (z + 2 ^ 31) mod 2 ^ 32 - 2 ^ 31.

Definition ivec2_add (a b : ivec2) : ivec2 :=
  (wrap32 (fst a + fst b), wrap32 (snd a + snd b)).

(** Component-wise [%]; both operands are non-negative wherever the kernel
    uses it, where GLSL defines it as the remainder of the truncated division. *)
Definition ivec2_rem (a b : ivec2) : ivec2 :=
  (Z.rem (fst a) (fst b), Z.rem (snd a) (snd b)).

(** ** R8 images *)

Record image : Type := Image {
  img_size : ivec2;
  img_texels : list Z
}.

Definition imageSize (img : image) : ivec2 := img_size img.

Definition in_bounds (size pos : ivec2) : bool :=
  (0 <=? fst pos) && (fst pos <? fst size) &&
  (0 <=? snd pos) && (snd pos <? snd size).

Definition texel_index (size pos : ivec2) : nat :=
  Z.to_nat (snd pos * fst size + fst pos).

(** The stored byte at [pos], when [pos] is inside the image. *)
Definition texel (img : image) (pos : ivec2) : option Z :=
  if in_bounds (img_size img) pos
  then img_texels img !! texel_index (img_size img) pos
  else None.

(** Unsigned normalized conversions of the R8 format. *)
Definition unorm8_to_float (v : Z) : Q := inject_Z v / 255.

Definition float_to_unorm8 (f : Q) : Z :=
  let c := if Qle_bool f 0 then 0%Q else if Qle_bool 1 f then 1%Q else f in
  Qfloor (c * 255 + (1 # 2)).

(** [imageLoad(img, pos).r]; an access outside the image reads zero. *)
Definition imageLoad (img : image) (pos : ivec2) : Q :=
  match texel img pos with
  | Some v => unorm8_to_float v
  | None => 0%Q
  end.

(** [imageStore(img, pos, vec4(r, 0, 0, 1))]; a store outside the image is
    discarded. *)
Definition imageStore (img : image) (pos : ivec2) (r : Q) : image :=
  if in_bounds (img_size img) pos
  then Image (img_size img)
             (<[texel_index (img_size img) pos := float_to_unorm8 r]>
                (img_texels img))
  else img.

(** [a > b] on floats. *)
Definition fgt (a b : Q) : bool := negb (Qle_bool a b).

(** ** The compute shader *)

Definition ALIVE : Z := 255.
Definition DEAD : Z := 0.

(** [(pos + ivec2(dx, dy) + size) % size] *)
Definition neighborPos (size pos : ivec2) (dx dy : Z) : ivec2 :=
  ivec2_rem (ivec2_add (ivec2_add pos (dx, dy)) size) size.

(** The two nested [for] loops of the kernel, [dy] outside and [dx] inside,
    with the [continue] at the centre. *)
Definition liveNeighbors (currentGrid : image) (pos : ivec2) : Z :=
  let size := imageSize currentGrid in
  fold_left (fun acc dy =>
    fold_left (fun acc dx =>
      if (dx =? 0) && (dy =? 0) then acc
      else acc + (if fgt (imageLoad currentGrid (neighborPos size pos dx dy))
                         (1 # 2)
                  then 1 else 0))
      [-1; 0; 1] acc)
    [-1; 0; 1] 0.

(** Lines 33-38: the rule. *)
Definition nextState (current : Q) (n : Z) : Q :=
  if fgt current (1 # 2)
  then (if (n =? 2) || (n =? 3) then 1%Q else 0%Q)
  else (if n =? 3 then 1%Q else 0%Q).

(** One invocation of [main] with [gl_GlobalInvocationID.xy = gid]. *)
Definition main (currentGrid : image) (gid : ivec2) (nextGrid : image) : image :=
  let pos := gid in
  let size := imageSize currentGrid in
  if (fst pos >=? fst size) || (snd pos >=? snd size) then nextGrid
  else
    let current := imageLoad currentGrid pos in
    let n := liveNeighbors currentGrid pos in
    imageStore nextGrid pos (nextState current n).

(** ** Dispatch

    [layout(local_size_x = 16, local_size_y = 16)]: every work group runs
    16 x 16 invocations, and [glDispatchCompute(gx, gy, 1)] runs [gx * gy]
    work groups. *)

Definition local_size : Z := 16.

Definition workGroupInvocations (wx wy : Z) : list ivec2 :=
  ly ← seqZ 0 local_size; lx ← seqZ 0 local_size;
  [(wx * local_size + lx, wy * local_size + ly)].

Definition globalInvocationIDs (numGroupsX numGroupsY : Z) : list ivec2 :=
  wy ← seqZ 0 numGroupsY; wx ← seqZ 0 numGroupsX; workGroupInvocations wx wy.

(** The kernel run once per invocation id of [ids], reading image unit 0
    and writing image unit 1. *)
Definition run_invocations (currentGrid : image) (ids : list ivec2)
    (nextGrid : image) : image :=
  fold_left (fun out gid => main currentGrid gid out) ids nextGrid.

(** Values of [glGetError]. *)
Definition GL_NO_ERROR : Z := 0.
Definition GL_INVALID_VALUE : Z := 1281.
Definition GL_INVALID_OPERATION : Z := 1282.

(** [glDispatchCompute] followed by [glGetError]. [err] is what the backend
    reports: with [GL_NO_ERROR] the kernel has run for every invocation; a
    command that raises an error is ignored by GL and writes nothing. *)
Definition glDispatchCompute (err : Z) (currentGrid nextGrid : image)
    (numGroupsX numGroupsY : Z) : image :=
  if err =? GL_NO_ERROR
  then run_invocations currentGrid
         (globalInvocationIDs numGroupsX numGroupsY) nextGrid
  else nextGrid.

(** ** The visualizer state *)

Record GridVisualizer : Type := Visualizer {
  textures : Z * Z;             (* the two texture names *)
  images : image * image;       (* the storage of textures[0], textures[1] *)
  currentTextureIdx : Z         (* GLuint *)
}.

Definition uint32 (z : Z) : Z := z mod 2 ^ 32.

(** [a[i]] for a two-element array; the index is 0 or 1 in every reachable
    state (see [computeStep_idx]). *)
Definition at2 {A : Type} (a : A * A) (i : Z) : A :=
  if i =? 0 then fst a else snd a.

Definition set2 {A : Type} (a : A * A) (i : Z) (v : A) : A * A :=
  if i =? 0 then (v, snd a) else (fst a, v).

(** The grid bound for reading (image unit 0, and the one [renderFrame]
    samples) and the grid bound for writing (image unit 1). *)
Definition current (s : GridVisualizer) : image :=
  at2 (images s) (currentTextureIdx s).

Definition writable (s : GridVisualizer) : image :=
  at2 (images s) (uint32 (1 - currentTextureIdx s)).

(** [currentTextureIdx = 1 - currentTextureIdx] *)
Definition swap (s : GridVisualizer) : GridVisualizer :=
  Visualizer (textures s) (images s) (uint32 (1 - currentTextureIdx s)).

Inductive diagnostic : Type :=
  | ComputeBindings (reading writing : Z)   (* std::cout, line 193 *)
  | ErrorAfterDispatch (err : Z)            (* std::cerr, line 194 *)
  | TextureUploadError (err : Z)            (* std::cerr, line 167 *)
  | GetTexImageError (err : Z)              (* std::cerr, line 175 *)
  | TexturesUploaded.                       (* std::cout, line 177 *)

(** [computeStep] for a [W] x [H] configuration; [err] is the value
    [glGetError] returns after the dispatch. [glMemoryBarrier] orders memory
    transactions and changes no value of the sequential state. *)
Definition computeStep (W H : Z) (err : Z) (s : GridVisualizer)
    : GridVisualizer * list diagnostic :=
  let readIdx := currentTextureIdx s in
  let writeIdx := uint32 (1 - currentTextureIdx s) in
  let numGroupsX := uint32 ((W + 15) ÷ 16) in
  let numGroupsY := uint32 ((H + 15) ÷ 16) in
  let written :=
    glDispatchCompute err (at2 (images s) readIdx) (at2 (images s) writeIdx)
      numGroupsX numGroupsY in
  let log :=
    if err =? GL_NO_ERROR then []
    else [ComputeBindings (at2 (textures s) readIdx) (at2 (textures s) writeIdx);
          ErrorAfterDispatch err] in
  (swap (Visualizer (textures s) (set2 (images s) writeIdx written)
                    (currentTextureIdx s)),
   log).

(** [n] consecutive frames of the main loop, all dispatches succeeding. *)
Fixpoint steps (W H : Z) (n : nat) (s : GridVisualizer) : GridVisualizer :=
  match n with
  | O => s
  | S k => steps W H k (fst (computeStep W H GL_NO_ERROR s))
  end.

(** ** Seeding *)

(** [rand() % 2 ? 255 : 0] *)
Definition cell_of_rand (r : Z) : Z :=
  if Z.rem r 2 =? 0 then 0 else 255.

(** Rows of client memory start at multiples of [GL_UNPACK_ALIGNMENT],
    which the program leaves at its initial value 4. *)
Definition unpack_row_stride (w : Z) : Z := (w + 3) ÷ 4 * 4.

(** [glTexSubImage2D(GL_TEXTURE_2D, 0, xoff, yoff, w, h, GL_RED,
    GL_UNSIGNED_BYTE, pixels)]: a region that does not fit raises
    [GL_INVALID_VALUE] and leaves the texture as it was. *)
Definition glTexSubImage2D (img : image) (xoff yoff w h : Z)
    (pixels : list Z) : image * Z :=
  let W := fst (img_size img) in
  let H := snd (img_size img) in
  if (0 <=? xoff) && (0 <=? yoff) && (0 <=? w) && (0 <=? h) &&
     (xoff + w <=? W) && (yoff + h <=? H)
  then
    (Image (img_size img)
       (imap (fun i old =>
                let x := Z.of_nat i mod W in
                let y := Z.of_nat i / W in
                if (xoff <=? x) && (x <? xoff + w) &&
                   (yoff <=? y) && (y <? yoff + h)
                then default 0 (pixels !! Z.to_nat
                       ((y - yoff) * unpack_row_stride w + (x - xoff)))
                else old)
             (img_texels img)),
     GL_NO_ERROR)
  else (img, GL_INVALID_VALUE).

Section Seeding.

(** The C library's generator: its state and one call of [rand()]. *)
Variable rand_state : Type.
Variable rand : rand_state -> Z * rand_state.

(** [n] successive results of [rand()]. *)
Fixpoint draws (n : nat) (g : rand_state) : list Z * rand_state :=
  match n with
  | O => ([], g)
  | S k => let (r, g1) := rand g in
           let (rs, g2) := draws k g1 in
           (r :: rs, g2)
  end.

(** The loop of lines 160-162. *)
Fixpoint fill_initialData (n : nat) (g : rand_state) : list Z * rand_state :=
  match n with
  | O => ([], g)
  | S k => let (r, g1) := rand g in
           let (rest, g2) := fill_initialData k g1 in
           (cell_of_rand r :: rest, g2)
  end.

(** [initializeGrid] for a [W] x [H] configuration, started with the
    generator in state [g]. The product [W * H] is an [int] in the source;
    the results below are for configurations where it does not overflow. *)
Definition initializeGrid (W H : Z) (s : GridVisualizer) (g : rand_state)
    : GridVisualizer * rand_state * list diagnostic :=
  let (initialData, g') := fill_initialData (Z.to_nat (W * H)) g in
  let (uploaded, err) :=
    glTexSubImage2D (fst (images s)) 0 0 W H initialData in
  let log1 := if err =? GL_NO_ERROR then [] else [TextureUploadError err] in
  (* glGetTexImage into checkData reads the texture back and changes
     nothing; it succeeds on a complete texture *)
  (Visualizer (textures s) (uploaded, snd (images s)) (currentTextureIdx s),
   g', log1 ++ [TexturesUploaded]).

End Seeding.

(** ** Well-formed images and states *)

Definition valid_size (size : ivec2) : Prop :=
  0 < fst size < 2 ^ 30 /\ 0 < snd size < 2 ^ 30.

Definition well_formed (img : image) : Prop :=
  valid_size (img_size img) /\
  length (img_texels img) = Z.to_nat (fst (img_size img) * snd (img_size img)).

(** Both textures were allocated [W] x [H] by the constructor, and the index
    selects one of them. *)
Definition wf_state (W H : Z) (s : GridVisualizer) : Prop :=
  (currentTextureIdx s = 0 \/ currentTextureIdx s = 1) /\
  well_formed (fst (images s)) /\ img_size (fst (images s)) = (W, H) /\
  well_formed (snd (images s)) /\ img_size (snd (images s)) = (W, H).

(** A cell is live when its intensity reads above the midpoint. *)
Definition isAlive (img : image) (pos : ivec2) : bool :=
  fgt (imageLoad img pos) (1 # 2).

(** The byte one invocation stores for [pos]. *)
Definition nextCell (currentGrid : image) (pos : ivec2) : Z :=
  float_to_unorm8
    (nextState (imageLoad currentGrid pos) (liveNeighbors currentGrid pos)).

(** The neighbourhood in the words of the specification: the positions
    [(p + (dx, dy)) mod (W, H)] for [dx], [dy] in [{-1, 0, 1}] without
    [(0, 0)]. *)
Definition torus_neighbors (size pos : ivec2) : list ivec2 :=
  dy ← [-1; 0; 1]; dx ← [-1; 0; 1];
  if (dx =? 0) && (dy =? 0) then []
  else [((fst pos + dx) mod fst size, (snd pos + dy) mod snd size)].

Definition live_count (img : image) (ps : list ivec2) : Z :=
  foldr (fun p n => (if isAlive img p then 1 else 0) + n) 0 ps.

(** ** Grids given by a predicate *)

Definition cell_of_bool (b : bool) : Z := if b then ALIVE else DEAD.

(** The binary [W] x [H] grid whose cell [(x, y)] is ALIVE exactly when
    [P x y] holds. *)
Definition image_of (W H : Z) (P : Z -> Z -> bool) : image :=
  Image (W, H)
    ((fun i => cell_of_bool (P (i mod W) (i / W))) <$> seqZ 0 (W * H)).

(** The rule on a cell's state and its number of live neighbours. *)
Definition rule (alive : bool) (n : Z) : bool :=
  if alive then (n =? 2) || (n =? 3) else n =? 3.

Definition b2z (b : bool) : Z := if b then 1 else 0.

(** One generation of a predicate on the [W] x [H] torus. *)
Definition generation (W H : Z) (P : Z -> Z -> bool) (x y : Z) : bool :=
  let xm := (x + -1) mod W in let xp := (x + 1) mod W in
  let ym := (y + -1) mod H in let yp := (y + 1) mod H in
  rule (P x y)
    (b2z (P xm ym) + b2z (P x ym) + b2z (P xp ym)
     + b2z (P xm y) + b2z (P xp y)
     + b2z (P xm yp) + b2z (P x yp) + b2z (P xp yp)).

(** ** Patterns on the torus *)

(** [a] is [c] or one of its two neighbours on a ring of [n] cells. *)
Definition near (n c a : Z) : bool :=
  (a =? c) || (a =? (c + 1) mod n) || (a =? (c + -1) mod n).

(** [a] is [c] or its successor on a ring of [n] cells. *)
Definition pair_at (n c a : Z) : bool :=
  (a =? c) || (a =? (c + 1) mod n).

Inductive orientation : Type := Horizontal | Vertical.

(** Three live cells in a row centred at [(cx, cy)], everything else dead. *)
Definition blinker (W H : Z) (o : orientation) (cx cy : Z) (x y : Z) : bool :=
  match o with
  | Horizontal => near W cx x && (y =? cy)
  | Vertical => (x =? cx) && near H cy y
  end.

Definition turn (o : orientation) : orientation :=
  match o with Horizontal => Vertical | Vertical => Horizontal end.

(** A 2 x 2 block with top-left cell [(cx, cy)], everything else dead. *)
Definition block (W H : Z) (cx cy : Z) (x y : Z) : bool :=
  pair_at W cx x && pair_at H cy y.

Ltac split_cmp :=
  match goal with
  | |- context [Z.ltb ?u ?v] => destruct (Z.ltb_spec u v); try (exfalso; lia)
  | |- context [Z.eqb ?u ?v] => destruct (Z.eqb_spec u v); try (exfalso; lia)
  end.

Ltac pick_row := simpl; repeat first [left; reflexivity | right]; fail.

(** What a cell and its two ring neighbours see of a three-cell segment and
    of its centre: the segment at the predecessor, the cell and the
    successor, then the centre at the same three places. *)
Definition segment_rows : list (bool * bool * bool * (bool * bool * bool)) :=
  [ (true, true, true, (false, true, false));
    (true, true, false, (true, false, false));
    (false, true, true, (false, false, true));
    (true, false, false, (false, false, false));
    (false, false, true, (false, false, false));
    (true, false, true, (false, false, false));
    (false, false, false, (false, false, false)) ].

Definition pair_rows : list (bool * bool * bool) :=
  [ (false, true, true); (true, true, false); (true, false, false);
    (false, false, true); (true, false, true); (false, false, false) ].

Ltac use_row H :=
  unfold segment_rows, pair_rows in H; cbn [In] in H;
  repeat (destruct H as [H|H]); try contradiction;
  injection H;
  repeat (let E := fresh "E" in intros E; try rewrite <- E; clear E);
  clear H.

(** ** The share of live cells *)

(** The number of values in [0 .. RAND_MAX] that the seeding maps to ALIVE,
    and their share: the probability that a cell is ALIVE when [rand()] is
    uniform on [0 .. RAND_MAX]. *)
Definition alive_values (RAND_MAX : Z) : Z :=
  Z.of_nat (length (List.filter (fun r => cell_of_rand r =? ALIVE)
                      (seqZ 0 (RAND_MAX + 1)))).

Definition alive_fraction (RAND_MAX : Z) : Q :=
  alive_values RAND_MAX # Z.to_pos (RAND_MAX + 1).

(** In the words of the specification: a cell is a Bernoulli([density])
    sample. *)
Definition bernoulli_cell (RAND_MAX : Z) (density : Q) : Prop :=
  alive_fraction RAND_MAX == density.

(** [main], lines 267-268: the program never calls [srand], so the first
    [rand()] of [initializeGrid] finds the generator as [srand(1)] leaves
    it. [s] is the visualizer as the constructor leaves it. *)
Definition main_initializeGrid (rand_state : Type) (srand : Z -> rand_state)
    (rand : rand_state -> Z * rand_state) (W H : Z) (s : GridVisualizer)
    : GridVisualizer :=
  fst (fst (initializeGrid rand_state rand W H s (srand 1))).

(** ** Examples *)

(** The portable generator the C standard gives as an example. *)
Definition example_srand (seed : Z) : Z := uint32 seed.

Definition example_rand (next : Z) : Z * Z :=
  let next' := uint32 (next * 1103515245 + 12345) in
  ((next' / 65536) mod 32768, next').

(** Concrete states used to run the model. *)
Definition blank (W H : Z) : image := image_of W H (fun _ _ => false).

Definition blinker_state : GridVisualizer :=
  Visualizer (1, 2) (image_of 5 5 (blinker 5 5 Horizontal 2 2), blank 5 5) 0.

Definition block_state : GridVisualizer :=
  Visualizer (1, 2) (blank 3 3, image_of 3 3 (block 3 3 2 2)) 1.

Definition grey_state : GridVisualizer :=
  Visualizer (1, 2)
    (Image (4, 4) [127; 128; 200; 3; 77; 129; 255; 0;
                   130; 64; 1; 2; 0; 0; 126; 254],
     Image (4, 4) [9; 8; 7; 6; 5; 4; 3; 2; 1; 10; 11; 12; 13; 14; 15; 16]) 0.

Definition fresh_state (fill0 fill1 : Z) : GridVisualizer :=
  Visualizer (1, 2)
    (Image (4, 2) (replicate 8 fill0), Image (4, 2) (replicate 8 fill1)) 0.

Ltac concrete := repeat split; try (vm_compute; reflexivity);
                 try (left; reflexivity); try (right; reflexivity).

(** ** Allocation of the textures

    Lines 130-141 of the constructor: two [W] x [H] R8 textures created by
    [glTexImage2D] with a null data pointer, whose contents are whatever the
    driver leaves there, and [currentTextureIdx = 0]. [undefined0] and
    [undefined1] stand for those contents. *)



(** ** The render pipeline *)

(** The vertex shader, lines 46-49: [TexCoord] and the first two components
    of [gl_Position]. The values are small integers, exact as floats. *)
Definition vertex_TexCoord (gl_VertexID : Z) : Q * Q :=
  (inject_Z (Z.land gl_VertexID 1), inject_Z (Z.shiftr gl_VertexID 1)).

Definition vertex_Position (gl_VertexID : Z) : Q * Q :=
  let tc := vertex_TexCoord gl_VertexID in
  (fst tc * 2 - 1, snd tc * 2 - 1)%Q.

(** [glDrawArrays(GL_TRIANGLE_STRIP, 0, 4)] *)
Definition strip_vertices : list Z := [0; 1; 2; 3].

(** Fixed function between the two shaders. With the viewport of line 120
    the centre of pixel [(px, py)] is the point
    [(2 (px + 1/2) / W - 1, 2 (py + 1/2) / H - 1)] of clip space, and an
    output that is an affine function of the position at the vertices (all
    of them have [w = 1]) is that affine function at every fragment. *)
Definition pixel_centre (W H px py : Z) : Q * Q :=
  (2 * (inject_Z px + (1 # 2)) / inject_Z W - 1,
   2 * (inject_Z py + (1 # 2)) / inject_Z H - 1)%Q.

Definition interpolated_TexCoord (position : Q * Q) : Q * Q :=
  ((fst position + 1) / 2, (snd position + 1) / 2)%Q.

(** [texture(gridTexture, TexCoord).r] with the [GL_NEAREST] filters of
    lines 134-135 and the initial wrap mode [GL_REPEAT]. *)
Definition texture_nearest (gridTexture : image) (TexCoord : Q * Q) : Q :=
  let W := fst (img_size gridTexture) in
  let H := snd (img_size gridTexture) in
  imageLoad gridTexture
    (Qfloor (fst TexCoord * inject_Z W) mod W,
     Qfloor (snd TexCoord * inject_Z H) mod H).

(** The fragment shader, lines 57-60: [FragColor]. *)
Definition fragment_main (gridTexture : image) (TexCoord : Q * Q)
    : Q * Q * Q * Q :=
  let value := texture_nearest gridTexture TexCoord in
  (value, value, value, 1%Q).

(** The colour of pixel [(px, py)] of a [W] x [H] viewport. *)
Definition pixel_colour (W H : Z) (gridTexture : image) (px py : Z)
    : Q * Q * Q * Q :=
  fragment_main gridTexture (interpolated_TexCoord (pixel_centre W H px py)).

(** ** Frames *)

(** What the backend reports in one call of [renderFrame]. *)
Record render_env : Type := RenderEnv {
  useProgram_error : Z;        (* glGetError after glUseProgram *)
  draw_error : Z               (* glGetError after glDrawArrays *)
}.

(** What happens in one turn of the loop of [main]: the errors reported, and
    whether [glfwWindowShouldClose] holds after the [glfwPollEvents] that
    ends the frame. *)
Record frame_env : Type := FrameEnv {
  dispatch_error : Z;
  render_errors : render_env;
  close_requested : bool
}.

Section FrameLoop.

(** The timer: [glfwGetTime()] reads a [double]. The comparison
    [currentTime - lastTime >= 1.0] is kept abstract. *)
Variable time : Type.
Variable clock : Type.
Variable glfwGetTime : clock -> time * clock.
Variable second_elapsed : time -> time -> bool.

Inductive render_diagnostic : Type :=
  | ErrorAfterUseProgram (err : Z)                  (* line 208 *)
  | RenderBoundTexture (bound expected : Z)         (* line 223 *)
  | UniformLocation (loc : Z)                       (* line 224 *)
  | UniformNotFound                                 (* line 225 *)
  | ErrorAfterDrawArrays (err : Z)                  (* line 231 *)
  | FPS (frameCount : Z) (currentTime lastTime : time).
      (* line 241 prints frameCount / (currentTime - lastTime) *)

(** The function-local statics [lastTime] and [frameCount] of
    [renderFrame]; [None] until the first call initialises them. *)
Definition fps_statics : Type := option (time * Z).

(** Lines 235-244. *)
Definition fps_update (st : fps_statics) (c : clock)
    : fps_statics * clock * list render_diagnostic :=
  let '(lastTime, frameCount, c1) :=
    match st with
    | None => let (t, c') := glfwGetTime c in (t, 0, c')
    | Some (t, n) => (t, n, c)
    end in
  let (currentTime, c2) := glfwGetTime c1 in
  let frameCount := wrap32 (frameCount + 1) in
  if second_elapsed currentTime lastTime
  then (Some (currentTime, 0), c2, [FPS frameCount currentTime lastTime])
  else (Some (lastTime, frameCount), c2, []).

(** The frames a log reports, and the frames counted but not yet
    reported. *)
Definition reported_frames (log : list render_diagnostic) : Z :=
  foldr (fun d n => match d with FPS k _ _ => k + n | _ => n end) 0 log.

Definition pending_frames (st : fps_statics) : Z :=
  match st with None => 0 | Some (_, n) => n end.

(** [renderFrame] with a window: the texture it draws, the statics, the
    timer and the diagnostics. [gridTexture_loc] is the uniform location the
    render program gives, [-1] when it has none. *)
Definition renderFrame (gridTexture_loc : Z) (e : render_env)
    (s : GridVisualizer) (st : fps_statics) (c : clock)
    : image * fps_statics * clock * list render_diagnostic :=
  let log1 := if useProgram_error e =? GL_NO_ERROR then []
              else [ErrorAfterUseProgram (useProgram_error e)] in
  let bound := at2 (textures s) (currentTextureIdx s) in
  let log2 := if gridTexture_loc =? -1
              then [RenderBoundTexture bound
                      (at2 (textures s) (currentTextureIdx s));
                    UniformLocation gridTexture_loc; UniformNotFound]
              else [] in
  let log3 := if draw_error e =? GL_NO_ERROR then []
              else [ErrorAfterDrawArrays (draw_error e)] in
  let '(st', c', log4) := fps_update st c in
  (at2 (images s) (currentTextureIdx s), st', c',
   log1 ++ log2 ++ log3 ++ log4).

(** The loop of [main], lines 270-273, over the frames the environment
    provides: what every frame draws and logs, and the state at the end.
    The window exists and no close request is pending when the loop is
    entered; the loop is followed for as long as [frames] lasts. *)
Fixpoint main_loop (W H gridTexture_loc : Z) (frames : list frame_env)
    (s : GridVisualizer) (st : fps_statics) (c : clock)
    : list (image * list diagnostic * list render_diagnostic)
      * (GridVisualizer * fps_statics * clock) :=
  match frames with
  | [] => ([], (s, st, c))
  | e :: rest =>
      let (s1, clog) := computeStep W H (dispatch_error e) s in
      let '(drawn, st1, c1, rlog) :=
        renderFrame gridTexture_loc (render_errors e) s1 st c in
      if close_requested e then ([(drawn, clog, rlog)], (s1, st1, c1))
      else
        let (out, final) := main_loop W H gridTexture_loc rest s1 st1 c1 in
        ((drawn, clog, rlog) :: out, final)
  end.

End FrameLoop.

(** The number of frames the loop runs: up to and with the first one that
    ends with a close request. *)
Fixpoint frames_run (frames : list frame_env) : nat :=
  match frames with
  | [] => O
  | e :: rest => if close_requested e then 1%nat else S (frames_run rest)
  end.

(** [n] frames with the given dispatch results, on the simulation state. *)
Definition run_steps (W H : Z) (errs : list Z) (s : GridVisualizer)
    : GridVisualizer :=
  fold_left (fun t err => fst (computeStep W H err t)) errs s.

(** The next generation of a grid: every cell by the rule, from the cells
    that read as live. *)
Definition nextGeneration (img : image) : image :=
  image_of (fst (img_size img)) (snd (img_size img))
    (fun x y => rule (isAlive img (x, y)) (liveNeighbors img (x, y))).

(** A predicate moved over the torus. *)
Definition shift (W H a b : Z) (P : Z -> Z -> bool) (x y : Z) : bool :=
  P ((x + a) mod W) ((y + b) mod H).

(** A timer for running the model: it advances half a second at every
    reading; and the test [currentTime - lastTime >= 1.0] on rationals. *)
Definition ticking_clock (c : Z) : Q * Z := ((c # 2)%Q, c + 1).

Definition Q_second_elapsed (currentTime lastTime : Q) : bool :=
  Qle_bool 1 (currentTime - lastTime).

(** ** Memory visibility and the error flag

    [computeStep] once more, keeping what the model above leaves out: the
    argument of [glMemoryBarrier] and GL's error flag.

    Stores made by a shader through an image unit are not coherent with
    later reads: a later access of a given kind is guaranteed to see them
    only after a [glMemoryBarrier] whose argument has the bit of that kind.
    Every texture therefore has, beside its texels as last written, the
    texels that image loads are guaranteed to see and the texels that
    texture fetches are guaranteed to see. Commands of the client, like the
    upload of [initializeGrid], are coherent. *)


Definition GL_TEXTURE_FETCH_BARRIER_BIT : Z := 8.            (* 0x00000008 *)
Definition GL_SHADER_IMAGE_ACCESS_BARRIER_BIT : Z := 32.     (* 0x00000020 *)
Definition GL_ALL_BARRIER_BITS : Z := 4294967295.            (* 0xFFFFFFFF *)

Record texture_views : Type := Views {
  backing : image;         (* the texels as last written *)
  image_view : image;      (* synchronised for imageLoad / imageStore *)
  fetch_view : image       (* synchronised for texture() *)
}.

Definition coherent (img : image) : texture_views := Views img img img.

Definition has_barrier_bit (barriers bit : Z) : bool :=
  negb (Z.land barriers bit =? 0).

Definition barrier_texture (barriers : Z) (t : texture_views) : texture_views :=
  Views (backing t)
    (if has_barrier_bit barriers GL_SHADER_IMAGE_ACCESS_BARRIER_BIT
     then backing t else image_view t)
    (if has_barrier_bit barriers GL_TEXTURE_FETCH_BARRIER_BIT
     then backing t else fetch_view t).

(** [glMemoryBarrier(barriers)] *)
Definition glMemoryBarrier (barriers : Z)
    (memory : texture_views * texture_views) : texture_views * texture_views :=
  (barrier_texture barriers (fst memory), barrier_texture barriers (snd memory)).

(** GL keeps the first error raised until [glGetError] returns it and
    clears the flag. *)
Definition record_error (flag err : Z) : Z :=
  if flag =? GL_NO_ERROR then err else flag.

Definition glGetError (flag : Z) : Z * Z := (flag, GL_NO_ERROR).

Record sync_visualizer : Type := SyncVisualizer {
  sv_textures : Z * Z;                           (* the two texture names *)
  sv_memory : texture_views * texture_views;     (* their storage *)
  sv_currentTextureIdx : Z;
  sv_error : Z                                   (* GL's error flag *)
}.

(** The texels as last written, as a state of the model above. *)
Definition backing_state (s : sync_visualizer) : GridVisualizer :=
  Visualizer (sv_textures s)
    (backing (fst (sv_memory s)), backing (snd (sv_memory s)))
    (sv_currentTextureIdx s).

(** What the two commands of [computeStep] that can fail raise in one
    call; [GL_NO_ERROR] when the command takes effect. A command that
    raises an error is ignored. *)
Record compute_env : Type := ComputeEnv {
  dispatch_raises : Z;
  barrier_raises : Z
}.

(** The commands [computeStep] issues and the assignment that ends it, in
    program order. *)
Inductive step_event : Type :=
  | EvUseProgram                                                 (* line 183 *)
  | EvBindImageTexture (unit texture : Z) (writeonly : bool)     (* 184, 185 *)
  | EvDispatchCompute (numGroupsX numGroupsY numGroupsZ : Z)     (* line 189 *)
  | EvGetError (returned : Z)                                    (* line 191 *)
  | EvMemoryBarrier (barriers : Z)                               (* line 197 *)
  | EvAssignCurrentTextureIdx (value : Z).                       (* line 198 *)

(** [computeStep] with the argument of [glMemoryBarrier] left open. The
    kernel loads through image unit 0 and stores through image unit 1. *)
Definition computeStep_barrier (barriers : Z) (W H : Z) (e : compute_env)
    (s : sync_visualizer)
    : sync_visualizer * list diagnostic * list step_event :=
  let readIdx := sv_currentTextureIdx s in
  let writeIdx := uint32 (1 - sv_currentTextureIdx s) in
  let cur := at2 (sv_memory s) readIdx in
  let nxt := at2 (sv_memory s) writeIdx in
  let numGroupsX := uint32 ((W + 15) ÷ 16) in
  let numGroupsY := uint32 ((H + 15) ÷ 16) in
  let written :=
    glDispatchCompute (dispatch_raises e) (image_view cur) (backing nxt)
      numGroupsX numGroupsY in
  let memory1 :=
    set2 (sv_memory s) writeIdx
      (Views written (image_view nxt) (fetch_view nxt)) in
  let (err, flag) :=
    glGetError (record_error (sv_error s) (dispatch_raises e)) in
  let log :=
    if err =? GL_NO_ERROR then []
    else [ComputeBindings (at2 (sv_textures s) readIdx)
                          (at2 (sv_textures s) writeIdx);
          ErrorAfterDispatch err] in
  let memory2 :=
    if barrier_raises e =? GL_NO_ERROR then glMemoryBarrier barriers memory1
    else memory1 in
  (SyncVisualizer (sv_textures s) memory2
     (uint32 (1 - sv_currentTextureIdx s))
     (record_error flag (barrier_raises e)),
   log,
   [EvUseProgram;
    EvBindImageTexture 0 (at2 (sv_textures s) readIdx) false;
    EvBindImageTexture 1 (at2 (sv_textures s) writeIdx) true;
    EvDispatchCompute numGroupsX numGroupsY 1;
    EvGetError err;
    EvMemoryBarrier barriers;
    EvAssignCurrentTextureIdx (uint32 (1 - sv_currentTextureIdx s))]).

(** [computeStep] as line 197 has it. *)
Definition computeStep_sync : Z -> Z -> compute_env -> sync_visualizer
    -> sync_visualizer * list diagnostic * list step_event :=
  computeStep_barrier GL_SHADER_IMAGE_ACCESS_BARRIER_BIT.

(** The texture [renderFrame] binds (line 214), which the fragment shader
    reads with [texture()] (line 58). *)
Definition drawn_texture (s : sync_visualizer) : texture_views :=
  at2 (sv_memory s) (sv_currentTextureIdx s).

(** What a texture fetch of texel [pos] may return: the texel as of the
    last synchronisation of fetches, or the texel as last written. *)
Definition fetch_may_return (t : texture_views) (pos : ivec2) (v : Z) : Prop :=
  texel (fetch_view t) pos = Some v \/ texel (backing t) pos = Some v.

(** In the words of the claim: a draw from [t] observes nothing but the
    given generation. *)
Definition draw_observes_only (t : texture_views) (generation : image) : Prop :=
  forall pos v, fetch_may_return t pos v -> texel generation pos = Some v.

(** Both textures hold [W] x [H] images, the index selects one of them, and
    image loads see the texels as last written. *)
Definition wf_sync (W H : Z) (s : sync_visualizer) : Prop :=
  wf_state W H (backing_state s) /\
  image_view (fst (sv_memory s)) = backing (fst (sv_memory s)) /\
  image_view (snd (sv_memory s)) = backing (snd (sv_memory s)).

(** The two values of the index, with the step unfolded. *)
Ltac sync_cases s Hi :=
  destruct s as [names [t0 t1] idx flag];
  cbn [backing_state sv_memory sv_currentTextureIdx sv_textures sv_error
       fst snd currentTextureIdx images textures] in *;
  destruct Hi as [-> | ->];
  unfold computeStep_sync, computeStep_barrier, drawn_texture;
  cbn [sv_memory sv_currentTextureIdx sv_textures sv_error fst snd glGetError];
  change (uint32 (1 - 0)) with 1; change (uint32 (1 - 1)) with 0;
  cbn [at2 set2 Z.eqb fst snd].


(** [blinker_state] after the uploads, every view in step. *)
Definition sync_blinker_state : sync_visualizer :=
  SyncVisualizer (1, 2)
    (coherent (image_of 5 5 (blinker 5 5 Horizontal 2 2)),
     coherent (blank 5 5)) 0 GL_NO_ERROR.

(** Five frames, the last of which ends with a close request, and one
    more that the loop never reaches. *)
Definition example_frames : list frame_env :=
  [ FrameEnv GL_NO_ERROR (RenderEnv GL_NO_ERROR GL_NO_ERROR) false;
    FrameEnv GL_NO_ERROR (RenderEnv GL_NO_ERROR GL_NO_ERROR) false;
    FrameEnv GL_NO_ERROR (RenderEnv GL_INVALID_OPERATION GL_NO_ERROR) false;
    FrameEnv GL_NO_ERROR (RenderEnv GL_NO_ERROR GL_NO_ERROR) false;
    FrameEnv GL_NO_ERROR (RenderEnv GL_NO_ERROR GL_NO_ERROR) true;
    FrameEnv GL_NO_ERROR (RenderEnv GL_NO_ERROR GL_NO_ERROR) false ].

(** * Lemmas *)

(** ** Arithmetic of the kernel *)

Lemma wrap32_small z : - 2 ^ 31 <= z < 2 ^ 31 -> wrap32 z = z.
Proof.
  intros Hz. unfold wrap32. rewrite Z.mod_small; lia.
Qed.

Lemma fgt_unorm8 v : fgt (unorm8_to_float v) (1 # 2) = (128 <=? v).
Proof.
  unfold fgt, unorm8_to_float, Qle_bool, Qdiv, Qmult, Qinv, inject_Z. simpl.
  change (1 * Z.pos (1 * 255)) with 255.
  destruct (Z.leb_spec (v * 1 * 2) 255), (Z.leb_spec 128 v); simpl; lia.
Qed.

Lemma nextState_cases c n : nextState c n = 1%Q \/ nextState c n = 0%Q.
Proof.
  unfold nextState.
  destruct (fgt c (1 # 2)), ((n =? 2) || (n =? 3)), (n =? 3); auto.
Qed.

Lemma in_bounds_iff size pos :
  in_bounds size pos = true <->
  0 <= fst pos < fst size /\ 0 <= snd pos < snd size.
Proof.
  unfold in_bounds. rewrite !andb_true_iff, !Z.leb_le, !Z.ltb_lt. lia.
Qed.

Lemma neighborPos_mod size pos dx dy :
  valid_size size -> in_bounds size pos = true ->
  -1 <= dx <= 1 -> -1 <= dy <= 1 ->
  neighborPos size pos dx dy =
    ((fst pos + dx) mod fst size, (snd pos + dy) mod snd size).
Proof.
  intros [Hw Hh] Hp%in_bounds_iff Hdx Hdy.
  destruct size as [W H], pos as [x y]; simpl in *.
  unfold neighborPos, ivec2_rem, ivec2_add; simpl.
  rewrite !wrap32_small by (rewrite ?wrap32_small; lia).
  rewrite !Z.rem_mod_nonneg by lia.
  f_equal.
  - replace (x + dx + W) with (x + dx + 1 * W) by lia.
    apply Z_mod_plus_full.
  - replace (y + dy + H) with (y + dy + 1 * H) by lia.
    apply Z_mod_plus_full.
Qed.

Lemma neighborPos_in_bounds size pos dx dy :
  valid_size size -> in_bounds size pos = true ->
  -1 <= dx <= 1 -> -1 <= dy <= 1 ->
  in_bounds size (neighborPos size pos dx dy) = true.
Proof.
  intros Hs Hp Hdx Hdy. rewrite neighborPos_mod by assumption.
  destruct Hs as [Hw Hh]. apply in_bounds_iff; simpl.
  split; apply Z.mod_pos_bound; lia.
Qed.

(** The loops, unrolled. *)
Lemma liveNeighbors_unfold img pos :
  liveNeighbors img pos =
  live_count img
    [neighborPos (img_size img) pos 1 1; neighborPos (img_size img) pos 0 1;
     neighborPos (img_size img) pos (-1) 1;
     neighborPos (img_size img) pos 1 0; neighborPos (img_size img) pos (-1) 0;
     neighborPos (img_size img) pos 1 (-1); neighborPos (img_size img) pos 0 (-1);
     neighborPos (img_size img) pos (-1) (-1)].
Proof.
  unfold liveNeighbors, live_count, isAlive, imageSize. simpl. lia.
Qed.


Lemma live_count_app img ps qs :
  live_count img (ps ++ qs) = live_count img ps + live_count img qs.
Proof.
  induction ps as [|p ps IH]; simpl; [reflexivity|]. rewrite IH. lia.
Qed.

Lemma liveNeighbors_torus img pos :
  valid_size (img_size img) -> in_bounds (img_size img) pos = true ->
  liveNeighbors img pos = live_count img (torus_neighbors (img_size img) pos).
Proof.
  intros Hs Hp. rewrite liveNeighbors_unfold.
  rewrite !neighborPos_mod by (assumption || lia).
  unfold torus_neighbors, live_count; simpl. lia.
Qed.


(** ** Loads and stores *)

Lemma texel_index_lt img pos :
  well_formed img -> in_bounds (img_size img) pos = true ->
  (texel_index (img_size img) pos < length (img_texels img))%nat.
Proof.
  intros [[Hw Hh] ->] Hp%in_bounds_iff. unfold texel_index.
  destruct (img_size img) as [W H], pos as [x y]; simpl in *.
  apply Z2Nat.inj_lt; nia.
Qed.

Lemma texel_index_inj size p q :
  in_bounds size p = true -> in_bounds size q = true ->
  texel_index size p = texel_index size q -> p = q.
Proof.
  intros Hp%in_bounds_iff Hq%in_bounds_iff. unfold texel_index.
  destruct size as [W H], p as [x y], q as [x' y']; simpl in *.
  intros Heq. apply Z2Nat.inj in Heq; [|nia|nia].
  assert (y = y') by nia. subst y'.
  f_equal. lia.
Qed.

Lemma imageStore_size img pos r : img_size (imageStore img pos r) = img_size img.
Proof.
  unfold imageStore. destruct (in_bounds _ _); reflexivity.
Qed.

Lemma imageStore_length img pos r :
  length (img_texels (imageStore img pos r)) = length (img_texels img).
Proof.
  unfold imageStore. destruct (in_bounds _ _); simpl; [|reflexivity].
  apply length_insert.
Qed.

Lemma imageStore_well_formed img pos r :
  well_formed img -> well_formed (imageStore img pos r).
Proof.
  unfold well_formed. rewrite imageStore_size, imageStore_length. auto.
Qed.

Lemma texel_imageStore_same img pos r :
  well_formed img -> in_bounds (img_size img) pos = true ->
  texel (imageStore img pos r) pos = Some (float_to_unorm8 r).
Proof.
  intros Hwf Hp. unfold texel, imageStore. rewrite Hp. simpl.
  rewrite Hp. apply list_lookup_insert_eq, texel_index_lt; assumption.
Qed.

Lemma texel_imageStore_other img pos q r :
  pos <> q -> texel (imageStore img pos r) q = texel img q.
Proof.
  intros Hne. unfold texel, imageStore.
  destruct (in_bounds (img_size img) pos) eqn:Hp; [|reflexivity]. simpl.
  destruct (in_bounds (img_size img) q) eqn:Hq; [|reflexivity].
  apply list_lookup_insert_ne. intros Heq.
  apply Hne. eapply texel_index_inj; eauto.
Qed.

Lemma texel_Some img pos :
  well_formed img -> in_bounds (img_size img) pos = true ->
  exists v, texel img pos = Some v.
Proof.
  intros Hwf Hp. unfold texel. rewrite Hp.
  apply lookup_lt_is_Some_2, texel_index_lt; assumption.
Qed.

(** Two images of one size that agree on every texel are the same image. *)
Lemma image_ext a b :
  well_formed a -> well_formed b -> img_size a = img_size b ->
  (forall pos, in_bounds (img_size a) pos = true -> texel a pos = texel b pos) ->
  a = b.
Proof.
  destruct a as [[W H] ta], b as [sb tb]; simpl.
  intros [[Hw Hh] Hla] [_ Hlb] <- Hall; simpl in *.
  f_equal. apply list_eq. intros i.
  destruct (decide (i < Z.to_nat (W * H))%nat) as [Hi|Hi].
  - specialize (Hall (Z.of_nat i mod W, Z.of_nat i / W)).
    unfold texel, texel_index in Hall; simpl in Hall.
    assert (Hin : in_bounds (W, H) (Z.of_nat i mod W, Z.of_nat i / W) = true).
    { apply in_bounds_iff; simpl.
      pose proof (Z.mod_pos_bound (Z.of_nat i) W ltac:(lia)).
      assert (Z.of_nat i < W * H) by lia.
      split; [lia|]. split; [apply Z.div_pos; lia|].
      apply Z.div_lt_upper_bound; lia. }
    rewrite Hin in Hall.
    replace (Z.to_nat (Z.of_nat i / W * W + Z.of_nat i mod W)) with i in Hall.
    + apply Hall. reflexivity.
    + rewrite (Z.mul_comm _ W), <- Z.div_mod by lia. lia.
  - rewrite !lookup_ge_None_2 by lia. reflexivity.
Qed.

(** ** One invocation *)

Lemma main_size cur gid nxt : img_size (main cur gid nxt) = img_size nxt.
Proof.
  unfold main. destruct (_ || _); [reflexivity|apply imageStore_size].
Qed.

Lemma main_well_formed cur gid nxt :
  well_formed nxt -> well_formed (main cur gid nxt).
Proof.
  intros Hn. unfold main.
  destruct (_ || _); [assumption|]. apply imageStore_well_formed, Hn.
Qed.

Lemma main_guard cur pos :
  in_bounds (img_size cur) pos = true ->
  (fst pos >=? fst (imageSize cur)) || (snd pos >=? snd (imageSize cur)) = false.
Proof.
  intros Hp%in_bounds_iff. unfold imageSize.
  apply orb_false_iff. rewrite !Z.geb_leb, !Z.leb_gt. lia.
Qed.

Lemma texel_main_same cur pos nxt :
  well_formed nxt -> img_size nxt = img_size cur ->
  in_bounds (img_size cur) pos = true ->
  texel (main cur pos nxt) pos = Some (nextCell cur pos).
Proof.
  intros Hn Hsz Hp. unfold main. rewrite main_guard by assumption.
  apply texel_imageStore_same; [assumption|]. rewrite Hsz. exact Hp.
Qed.

Lemma texel_main_other cur gid nxt q :
  gid <> q -> texel (main cur gid nxt) q = texel nxt q.
Proof.
  intros Hne. unfold main.
  destruct (_ || _); [reflexivity|]. apply texel_imageStore_other, Hne.
Qed.

(** ** A whole dispatch, in any order of its invocations *)

Lemma run_invocations_size cur ids nxt :
  img_size (run_invocations cur ids nxt) = img_size nxt.
Proof.
  revert nxt. induction ids as [|gid ids IH]; intros nxt; simpl; [reflexivity|].
  unfold run_invocations in *. simpl. rewrite IH. apply main_size.
Qed.

Lemma run_invocations_well_formed cur ids nxt :
  well_formed nxt -> well_formed (run_invocations cur ids nxt).
Proof.
  revert nxt. induction ids as [|gid ids IH]; intros nxt Hn; [exact Hn|].
  unfold run_invocations in *. simpl. apply IH, main_well_formed, Hn.
Qed.

Lemma texel_run_invocations_skip cur ids nxt q :
  ~ In q ids -> texel (run_invocations cur ids nxt) q = texel nxt q.
Proof.
  revert nxt. induction ids as [|gid ids IH]; intros nxt Hq; [reflexivity|].
  unfold run_invocations in *. simpl in *.
  rewrite IH by tauto. apply texel_main_other. tauto.
Qed.

Lemma texel_run_invocations cur ids nxt pos :
  well_formed nxt -> img_size nxt = img_size cur ->
  in_bounds (img_size cur) pos = true -> In pos ids ->
  texel (run_invocations cur ids nxt) pos = Some (nextCell cur pos).
Proof.
  revert nxt. induction ids as [|gid ids IH]; intros nxt Hn Hsz Hp Hin.
  - destruct Hin.
  - unfold run_invocations in *. simpl.
    destruct (in_dec (fun a b : ivec2 => decide (a = b)) pos ids)
      as [Hlater|Hlast].
    + apply IH; auto using main_well_formed.
      rewrite main_size. exact Hsz.
    + change (texel (run_invocations cur ids (main cur gid nxt)) pos
              = Some (nextCell cur pos)).
      rewrite texel_run_invocations_skip by assumption.
      destruct Hin as [->|Hin]; [|contradiction].
      apply texel_main_same; assumption.
Qed.

(** The order of the invocations, and how often each one runs, does not
    matter: no invocation reads what another one writes. *)
Lemma run_invocations_order cur ids ids' nxt :
  well_formed nxt -> img_size nxt = img_size cur ->
  (forall p, In p ids <-> In p ids') ->
  run_invocations cur ids nxt = run_invocations cur ids' nxt.
Proof.
  intros Hn Hsz Hsame.
  apply image_ext; auto using run_invocations_well_formed.
  - rewrite !run_invocations_size. reflexivity.
  - intros pos Hp. rewrite run_invocations_size, Hsz in Hp.
    destruct (in_dec (fun a b : ivec2 => decide (a = b)) pos ids) as [Hin|Hout].
    + rewrite !texel_run_invocations; auto. apply Hsame, Hin.
    + rewrite !texel_run_invocations_skip; auto.
      intros Hin'. apply Hout, Hsame, Hin'.
Qed.

Lemma workGroupInvocations_covers wx wy lx ly :
  0 <= lx < local_size -> 0 <= ly < local_size ->
  (wx * local_size + lx, wy * local_size + ly) ∈ workGroupInvocations wx wy.
Proof.
  intros Hx Hy. unfold workGroupInvocations.
  apply list_elem_of_bind. exists ly. split; [|apply elem_of_seqZ; lia].
  apply list_elem_of_bind. exists lx. split; [|apply elem_of_seqZ; lia].
  apply list_elem_of_singleton. reflexivity.
Qed.

Lemma globalInvocationIDs_covers gx gy x y :
  0 <= x < gx * local_size -> 0 <= y < gy * local_size ->
  In (x, y) (globalInvocationIDs gx gy).
Proof.
  intros Hx Hy. apply list_elem_of_In. unfold globalInvocationIDs, local_size in *.
  apply list_elem_of_bind. exists (y / 16). split.
  - apply list_elem_of_bind. exists (x / 16). split.
    + replace (x, y) with (x / 16 * local_size + x mod 16,
                           y / 16 * local_size + y mod 16).
      * apply workGroupInvocations_covers; apply Z.mod_pos_bound; reflexivity.
      * unfold local_size.
        rewrite (Z.div_mod x 16) at 3 by lia.
        rewrite (Z.div_mod y 16) at 3 by lia. f_equal; lia.
    + apply elem_of_seqZ. split; [apply Z.div_pos; lia|].
      simpl. apply Z.div_lt_upper_bound; lia.
  - apply elem_of_seqZ. split; [apply Z.div_pos; lia|].
    simpl. apply Z.div_lt_upper_bound; lia.
Qed.

Lemma numGroups_cover n :
  0 < n < 2 ^ 30 -> n <= uint32 ((n + 15) ÷ 16) * local_size.
Proof.
  intros Hn. unfold uint32, local_size.
  rewrite Z.quot_div_nonneg by lia.
  assert ((n + 15) / 16 < 2 ^ 30) by (apply Z.div_lt_upper_bound; lia).
  assert (0 <= (n + 15) / 16) by (apply Z.div_pos; lia).
  rewrite Z.mod_small by lia.
  pose proof (Z.div_mod (n + 15) 16 ltac:(lia)).
  pose proof (Z.mod_pos_bound (n + 15) 16 ltac:(lia)). lia.
Qed.

Lemma texel_dispatch W H cur nxt pos :
  well_formed cur -> img_size cur = (W, H) ->
  well_formed nxt -> img_size nxt = (W, H) ->
  in_bounds (W, H) pos = true ->
  texel (glDispatchCompute GL_NO_ERROR cur nxt
           (uint32 ((W + 15) ÷ 16)) (uint32 ((H + 15) ÷ 16))) pos
  = Some (nextCell cur pos).
Proof.
  intros [Hvs _] Hcs Hn Hns Hp. unfold glDispatchCompute. simpl.
  rewrite Hcs in Hvs. destruct Hvs as [Hw Hh]; simpl in *.
  apply texel_run_invocations; try congruence.
  destruct pos as [x y]. apply in_bounds_iff in Hp; simpl in Hp.
  pose proof (numGroups_cover W Hw). pose proof (numGroups_cover H Hh).
  apply globalInvocationIDs_covers; lia.
Qed.

Lemma dispatch_well_formed err cur nxt gx gy :
  well_formed nxt -> well_formed (glDispatchCompute err cur nxt gx gy).
Proof.
  intros Hn. unfold glDispatchCompute.
  destruct (err =? GL_NO_ERROR); [|exact Hn].
  apply run_invocations_well_formed, Hn.
Qed.

Lemma dispatch_size err cur nxt gx gy :
  img_size (glDispatchCompute err cur nxt gx gy) = img_size nxt.
Proof.
  unfold glDispatchCompute.
  destruct (err =? GL_NO_ERROR); [|reflexivity]. apply run_invocations_size.
Qed.

(** ** [computeStep] *)

Lemma uint32_flip i : i = 0 \/ i = 1 -> uint32 (1 - i) = 1 - i.
Proof. intros [->| ->]; reflexivity. Qed.

Lemma computeStep_idx W H err s :
  currentTextureIdx s = 0 \/ currentTextureIdx s = 1 ->
  currentTextureIdx (fst (computeStep W H err s)) = 1 - currentTextureIdx s.
Proof. intros Hi. simpl. apply uint32_flip, Hi. Qed.

Lemma computeStep_wf W H err s :
  wf_state W H s -> wf_state W H (fst (computeStep W H err s)).
Proof.
  intros (Hi & H0 & S0 & H1 & S1). unfold wf_state; simpl.
  rewrite (uint32_flip _ Hi).
  split; [lia|].
  destruct Hi as [-> | ->]; simpl;
    rewrite ?dispatch_size; auto using dispatch_well_formed.
Qed.

Lemma computeStep_writable W H err s :
  wf_state W H s -> writable (fst (computeStep W H err s)) = current s.
Proof.
  intros (Hi & _). unfold writable, current; simpl.
  rewrite (uint32_flip _ Hi).
  destruct Hi as [-> | ->]; reflexivity.
Qed.

Lemma computeStep_current W H err s :
  wf_state W H s ->
  current (fst (computeStep W H err s)) =
  glDispatchCompute err (current s) (writable s)
    (uint32 ((W + 15) ÷ 16)) (uint32 ((H + 15) ÷ 16)).
Proof.
  intros (Hi & _). unfold writable, current; simpl.
  rewrite (uint32_flip _ Hi).
  destruct Hi as [-> | ->]; reflexivity.
Qed.

Lemma wf_current W H s :
  wf_state W H s -> well_formed (current s) /\ img_size (current s) = (W, H).
Proof.
  intros (Hi & H0 & S0 & H1 & S1). unfold current.
  destruct Hi as [-> | ->]; simpl; auto.
Qed.

Lemma wf_writable W H s :
  wf_state W H s -> well_formed (writable s) /\ img_size (writable s) = (W, H).
Proof.
  intros (Hi & H0 & S0 & H1 & S1). unfold writable.
  destruct Hi as [-> | ->]; simpl; auto.
Qed.

Lemma computeStep_texel W H s pos :
  wf_state W H s -> in_bounds (W, H) pos = true ->
  texel (current (fst (computeStep W H GL_NO_ERROR s))) pos
  = Some (nextCell (current s) pos).
Proof.
  intros Hwf Hp. rewrite computeStep_current by assumption.
  destruct (wf_current _ _ _ Hwf), (wf_writable _ _ _ Hwf).
  apply texel_dispatch; assumption.
Qed.

Lemma steps_wf W H n s : wf_state W H s -> wf_state W H (steps W H n s).
Proof.
  revert s. induction n as [|n IH]; intros s Hs; [exact Hs|].
  simpl. apply IH, computeStep_wf, Hs.
Qed.

(** ** Grids given by a predicate *)

Lemma image_of_well_formed W H P :
  valid_size (W, H) -> well_formed (image_of W H P).
Proof.
  intros Hs. split; [exact Hs|]. simpl.
  rewrite length_fmap, length_seqZ. reflexivity.
Qed.

Lemma texel_image_of W H P x y :
  in_bounds (W, H) (x, y) = true ->
  texel (image_of W H P) (x, y) = Some (cell_of_bool (P x y)).
Proof.
  intros Hp. unfold texel, image_of; simpl. rewrite Hp.
  apply in_bounds_iff in Hp; simpl in Hp. unfold texel_index; simpl.
  rewrite list_lookup_fmap, lookup_seqZ_lt by nia. simpl.
  rewrite Z2Nat.id by nia. rewrite Z.add_0_l.
  rewrite Z.add_comm, Z_mod_plus_full, Z.mod_small by lia.
  rewrite Z.div_add by lia. rewrite Z.div_small by lia. reflexivity.
Qed.

Lemma isAlive_cell_of_bool img pos b :
  texel img pos = Some (cell_of_bool b) -> isAlive img pos = b.
Proof.
  intros Ht. unfold isAlive, imageLoad. rewrite Ht, fgt_unorm8.
  destruct b; reflexivity.
Qed.

Lemma isAlive_image_of W H P x y :
  in_bounds (W, H) (x, y) = true -> isAlive (image_of W H P) (x, y) = P x y.
Proof.
  intros Hp. apply isAlive_cell_of_bool, texel_image_of, Hp.
Qed.

Lemma image_of_ext W H P Q :
  valid_size (W, H) ->
  (forall x y, in_bounds (W, H) (x, y) = true -> P x y = Q x y) ->
  image_of W H P = image_of W H Q.
Proof.
  intros Hs HPQ. apply image_ext; auto using image_of_well_formed.
  intros [x y] Hp; simpl in Hp.
  rewrite !texel_image_of by assumption. rewrite HPQ by assumption.
  reflexivity.
Qed.

(** The byte stored by an invocation, through the rule. *)
Lemma nextCell_rule img pos :
  nextCell img pos = cell_of_bool (rule (isAlive img pos) (liveNeighbors img pos)).
Proof.
  unfold nextCell, nextState, rule, isAlive.
  destruct (fgt (imageLoad img pos) (1 # 2)).
  - destruct ((_ =? 2) || (_ =? 3)); reflexivity.
  - destruct (_ =? 3); reflexivity.
Qed.

Lemma mod_in_range W x : 0 < W -> 0 <= x mod W < W.
Proof. intros. apply Z.mod_pos_bound. assumption. Qed.

Lemma nextCell_image_of W H P x y :
  valid_size (W, H) -> in_bounds (W, H) (x, y) = true ->
  nextCell (image_of W H P) (x, y) = cell_of_bool (generation W H P x y).
Proof.
  intros Hs Hp. rewrite nextCell_rule.
  rewrite liveNeighbors_torus by assumption.
  rewrite isAlive_image_of by assumption.
  unfold generation, torus_neighbors, live_count; simpl.
  destruct Hs as [Hw Hh]; simpl in *.
  apply in_bounds_iff in Hp; simpl in Hp.
  rewrite !isAlive_image_of
    by (apply in_bounds_iff; simpl; split;
        first [apply mod_in_range; lia | lia]).
  rewrite !Z.add_0_r, (Z.mod_small x W), (Z.mod_small y H) by lia.
  unfold b2z. f_equal. f_equal. lia.
Qed.

(** A successful step, on grids given by predicates. *)
Lemma computeStep_image_of W H s P :
  wf_state W H s -> current s = image_of W H P ->
  current (fst (computeStep W H GL_NO_ERROR s))
  = image_of W H (generation W H P).
Proof.
  intros Hwf HP.
  pose proof (computeStep_wf W H GL_NO_ERROR s Hwf) as Hwf'.
  destruct (wf_current _ _ _ Hwf) as [[Hvs _] Hsz].
  destruct (wf_current _ _ _ Hwf') as [Hw' Hsz'].
  rewrite Hsz in Hvs.
  apply image_ext; auto using image_of_well_formed.
  intros [x y] Hp. rewrite Hsz' in Hp.
  rewrite computeStep_texel by assumption.
  rewrite texel_image_of by assumption.
  rewrite HP, nextCell_image_of by assumption. reflexivity.
Qed.

(** ** Patterns on the torus *)

Lemma succ_mod n a :
  0 <= a < n -> (a + 1) mod n = if a + 1 <? n then a + 1 else 0.
Proof.
  intros Ha. destruct (Z.ltb_spec (a + 1) n).
  - apply Z.mod_small. lia.
  - replace (a + 1) with n by lia. apply Z_mod_same_full.
Qed.

Lemma pred_mod n a :
  0 <= a < n -> (a + -1) mod n = if 0 <? a then a + -1 else n + -1.
Proof.
  intros Ha. destruct (Z.ltb_spec 0 a).
  - apply Z.mod_small. lia.
  - replace (a + -1) with (n + -1 + -1 * n) by lia.
    rewrite Z_mod_plus_full. apply Z.mod_small. lia.
Qed.

Lemma segment_profile n c a :
  4 <= n -> 0 <= c < n -> 0 <= a < n ->
  In (near n c ((a + -1) mod n), near n c a, near n c ((a + 1) mod n),
      ((a + -1) mod n =? c, a =? c, (a + 1) mod n =? c))
     segment_rows.
Proof.
  intros Hn Hc Ha. unfold near.
  rewrite (succ_mod n a), (pred_mod n a), (succ_mod n c), (pred_mod n c) by lia.
  repeat split_cmp; pick_row.
Qed.

Lemma pair_profile n c a :
  3 <= n -> 0 <= c < n -> 0 <= a < n ->
  In (pair_at n c ((a + -1) mod n), pair_at n c a, pair_at n c ((a + 1) mod n))
     pair_rows.
Proof.
  intros Hn Hc Ha. unfold pair_at.
  rewrite (succ_mod n a), (pred_mod n a), (succ_mod n c) by lia.
  repeat split_cmp; pick_row.
Qed.

Lemma blinker_generation W H o cx cy x y :
  4 <= W -> 4 <= H ->
  in_bounds (W, H) (cx, cy) = true -> in_bounds (W, H) (x, y) = true ->
  generation W H (blinker W H o cx cy) x y = blinker W H (turn o) cx cy x y.
Proof.
  intros HW HH Hc%in_bounds_iff Hp%in_bounds_iff; simpl in Hc, Hp.
  pose proof (segment_profile W cx x HW ltac:(lia) ltac:(lia)) as Px.
  pose proof (segment_profile H cy y HH ltac:(lia) ltac:(lia)) as Py.
  destruct o; unfold generation, blinker, turn;
    use_row Px; use_row Py; reflexivity.
Qed.

Lemma block_generation W H cx cy x y :
  3 <= W -> 3 <= H ->
  in_bounds (W, H) (cx, cy) = true -> in_bounds (W, H) (x, y) = true ->
  generation W H (block W H cx cy) x y = block W H cx cy x y.
Proof.
  intros HW HH Hc%in_bounds_iff Hp%in_bounds_iff; simpl in Hc, Hp.
  pose proof (pair_profile W cx x HW ltac:(lia) ltac:(lia)) as Px.
  pose proof (pair_profile H cy y HH ltac:(lia) ltac:(lia)) as Py.
  unfold generation, block; use_row Px; use_row Py; reflexivity.
Qed.

(** ** Seeding *)

Lemma cell_of_rand_odd r : cell_of_rand r = if Z.odd r then ALIVE else DEAD.
Proof.
  unfold cell_of_rand.
  pose proof (Z.quot_rem r 2 ltac:(lia)) as Hqr.
  assert (Hb : -1 <= Z.rem r 2 <= 1).
  { pose proof (Z.rem_bound_abs r 2 ltac:(lia)). lia. }
  assert (Ho : Z.odd r = Z.odd (Z.rem r 2)).
  { rewrite Hqr at 1. rewrite Z.add_comm. apply Z.odd_add_mul_2. }
  rewrite Ho.
  assert (Hc : Z.rem r 2 = -1 \/ Z.rem r 2 = 0 \/ Z.rem r 2 = 1) by lia.
  destruct Hc as [-> | [-> | ->]]; reflexivity.
Qed.

Lemma unpack_row_stride_aligned w :
  0 <= w -> w mod 4 = 0 -> unpack_row_stride w = w.
Proof.
  intros Hw Hm. unfold unpack_row_stride.
  rewrite Z.quot_div_nonneg by lia.
  Z.div_mod_to_equations. lia.
Qed.

(** Uploading the whole texture from rows that need no padding replaces its
    contents by the client array. *)
Lemma glTexSubImage2D_full img W H pixels :
  well_formed img -> img_size img = (W, H) -> W mod 4 = 0 ->
  length pixels = Z.to_nat (W * H) ->
  glTexSubImage2D img 0 0 W H pixels = (Image (W, H) pixels, GL_NO_ERROR).
Proof.
  intros [[Hw Hh] Hlen] Hsz Hal Hpx. unfold glTexSubImage2D.
  rewrite Hsz in *; cbn [fst snd] in *.
  replace ((0 <=? 0) && (0 <=? 0) && (0 <=? W) && (0 <=? H) &&
           (0 + W <=? W) && (0 + H <=? H)) with true
    by (symmetry; rewrite !andb_true_iff, !Z.leb_le; lia).
  f_equal. f_equal. apply list_eq. intros i.
  rewrite list_lookup_imap.
  destruct (decide (i < Z.to_nat (W * H))%nat) as [Hi|Hi].
  - destruct (lookup_lt_is_Some_2 (img_texels img) i ltac:(lia)) as [old ->].
    destruct (lookup_lt_is_Some_2 pixels i ltac:(lia)) as [v Hv].
    cbn [fmap option_fmap option_map]. rewrite unpack_row_stride_aligned by lia.
    assert (Hx : 0 <= Z.of_nat i mod W < W) by (apply Z.mod_pos_bound; lia).
    assert (Hy : 0 <= Z.of_nat i / W < H).
    { split; [apply Z.div_pos; lia|]. apply Z.div_lt_upper_bound; lia. }
    replace ((0 <=? Z.of_nat i mod W) && (Z.of_nat i mod W <? 0 + W) &&
             (0 <=? Z.of_nat i / W) && (Z.of_nat i / W <? 0 + H)) with true
      by (symmetry; rewrite !andb_true_iff, !Z.leb_le, !Z.ltb_lt; lia).
    replace (Z.to_nat ((Z.of_nat i / W - 0) * W + (Z.of_nat i mod W - 0)))
      with i.
    + rewrite Hv. reflexivity.
    + rewrite Z.sub_0_r, Z.sub_0_r, (Z.mul_comm _ W), <- Z.div_mod by lia. lia.
  - rewrite (lookup_ge_None_2 (img_texels img)) by lia.
    symmetry. apply lookup_ge_None_2. lia.
Qed.

Section SeedingFacts.

Variable rand_state : Type.
Variable rand : rand_state -> Z * rand_state.

Lemma draws_length n g : length (fst (draws rand_state rand n g)) = n.
Proof.
  revert g. induction n as [|n IH]; intros g; simpl; [reflexivity|].
  destruct (rand g) as [r g1]. specialize (IH g1).
  destruct (draws rand_state rand n g1) as [rs g2]. simpl in *. lia.
Qed.

(** Every cell of the client array comes from its own call of [rand()]. *)
Lemma fill_initialData_draws n g :
  fill_initialData rand_state rand n g =
  (cell_of_rand <$> fst (draws rand_state rand n g),
   snd (draws rand_state rand n g)).
Proof.
  revert g. induction n as [|n IH]; intros g; simpl; [reflexivity|].
  destruct (rand g) as [r g1]. rewrite IH.
  destruct (draws rand_state rand n g1) as [rs g2]. reflexivity.
Qed.

Lemma initializeGrid_spec W H s g :
  wf_state W H s -> W mod 4 = 0 ->
  initializeGrid rand_state rand W H s g =
  (Visualizer (textures s)
     (Image (W, H)
        (cell_of_rand <$> fst (draws rand_state rand (Z.to_nat (W * H)) g)),
      snd (images s))
     (currentTextureIdx s),
   snd (draws rand_state rand (Z.to_nat (W * H)) g),
   [TexturesUploaded]).
Proof.
  intros (_ & H0 & S0 & _) Hal. unfold initializeGrid.
  rewrite fill_initialData_draws.
  rewrite (glTexSubImage2D_full _ W H) by
    (try assumption; rewrite length_fmap; apply draws_length).
  reflexivity.
Qed.

End SeedingFacts.

(** Of the values [0 .. 2k-1] exactly [k] are mapped to ALIVE. *)
Lemma alive_values_half (k : nat) :
  length (List.filter (fun r => cell_of_rand r =? ALIVE)
            (seqZ 0 (Z.of_nat (2 * k)))) = k.
Proof.
  induction k as [|k IH]; [reflexivity|].
  replace (2 * S k)%nat with (S (S (2 * k))) by lia.
  rewrite !seqZ_S, !List.filter_app, !length_app, IH. simpl.
  rewrite !cell_of_rand_odd.
  replace (Z.of_nat (S (k + (k + 0)))) with (2 * Z.of_nat k + 1) by lia.
  replace (Z.of_nat (k + (k + 0))) with (2 * Z.of_nat k) by lia.
  rewrite !Z.add_0_l.
  replace (2 * Z.of_nat k + 1) with (1 + 2 * Z.of_nat k) by lia.
  rewrite Z.odd_add_mul_2.
  replace (2 * Z.of_nat k) with (0 + 2 * Z.of_nat k) by lia.
  rewrite Z.odd_add_mul_2. simpl. lia.
Qed.

(** ** Whole steps *)

Lemma computeStep_as_image_of W H s :
  wf_state W H s ->
  current (fst (computeStep W H GL_NO_ERROR s)) =
  image_of W H (fun x y => rule (isAlive (current s) (x, y))
                                (liveNeighbors (current s) (x, y))).
Proof.
  intros Hwf.
  pose proof (computeStep_wf W H GL_NO_ERROR s Hwf) as Hwf'.
  destruct (wf_current _ _ _ Hwf) as [[Hvs _] Hsz].
  destruct (wf_current _ _ _ Hwf') as [Hw' Hsz'].
  rewrite Hsz in Hvs.
  apply image_ext; auto using image_of_well_formed.
  intros [x y] Hp. rewrite Hsz' in Hp.
  rewrite computeStep_texel by assumption.
  rewrite texel_image_of by assumption.
  rewrite nextCell_rule. reflexivity.
Qed.

Lemma cell_of_bool_inj b c : cell_of_bool b = cell_of_bool c -> b = c.
Proof. destruct b, c; intros E; vm_compute in E; congruence. Qed.

Lemma image_of_inj W H P Q x y :
  in_bounds (W, H) (x, y) = true ->
  image_of W H P = image_of W H Q -> P x y = Q x y.
Proof.
  intros Hp Heq. apply cell_of_bool_inj.
  assert (E : texel (image_of W H P) (x, y) = texel (image_of W H Q) (x, y))
    by (rewrite Heq; reflexivity).
  rewrite !texel_image_of in E by assumption. congruence.
Qed.

(** A blinker and the blinker turned by a quarter differ in the cell next to
    the centre. *)
Lemma blinker_turn_differs W H o cx cy :
  4 <= W -> 4 <= H -> valid_size (W, H) ->
  in_bounds (W, H) (cx, cy) = true ->
  image_of W H (blinker W H (turn o) cx cy) <> image_of W H (blinker W H o cx cy).
Proof.
  intros HW HH Hvs Hc%in_bounds_iff Heq; simpl in Hc.
  destruct o; cbn [turn] in Heq.
  - apply (image_of_inj W H _ _ ((cx + 1) mod W) cy) in Heq.
    + revert Heq. unfold blinker, near.
      rewrite !Z.eqb_refl, !orb_true_r, !orb_true_l.
      rewrite (succ_mod W cx) by lia. repeat split_cmp; simpl; congruence.
    + apply in_bounds_iff; simpl. split; [apply mod_in_range|]; lia.
  - apply (image_of_inj W H _ _ cx ((cy + 1) mod H)) in Heq.
    + revert Heq. unfold blinker, near.
      rewrite !Z.eqb_refl, !orb_true_r, !orb_true_l.
      rewrite (succ_mod H cy) by lia. repeat split_cmp; simpl; congruence.
    + apply in_bounds_iff; simpl. split; [|apply mod_in_range]; lia.
Qed.

(** One step turns a blinker by a quarter, and leaves a block alone. *)
Lemma step_blinker W H o cx cy s :
  4 <= W -> 4 <= H -> wf_state W H s ->
  in_bounds (W, H) (cx, cy) = true ->
  current s = image_of W H (blinker W H o cx cy) ->
  current (fst (computeStep W H GL_NO_ERROR s))
  = image_of W H (blinker W H (turn o) cx cy).
Proof.
  intros HW HH Hwf Hc Hs.
  destruct (wf_current _ _ _ Hwf) as [[Hvs _] Hsz]. rewrite Hsz in Hvs.
  rewrite (computeStep_image_of W H s _ Hwf Hs).
  apply image_of_ext; [assumption|].
  intros x y Hp. apply blinker_generation; assumption.
Qed.

Lemma step_block W H cx cy s :
  3 <= W -> 3 <= H -> wf_state W H s ->
  in_bounds (W, H) (cx, cy) = true ->
  current s = image_of W H (block W H cx cy) ->
  current (fst (computeStep W H GL_NO_ERROR s))
  = image_of W H (block W H cx cy).
Proof.
  intros HW HH Hwf Hc Hs.
  destruct (wf_current _ _ _ Hwf) as [[Hvs _] Hsz]. rewrite Hsz in Hvs.
  rewrite (computeStep_image_of W H s _ Hwf Hs).
  apply image_of_ext; [assumption|].
  intros x y Hp. apply block_generation; assumption.
Qed.

Lemma turn_turn o : turn (turn o) = o.
Proof. destruct o; reflexivity. Qed.

Lemma blinker_two_steps W H o cx cy s :
  4 <= W -> 4 <= H -> wf_state W H s ->
  in_bounds (W, H) (cx, cy) = true ->
  current s = image_of W H (blinker W H o cx cy) ->
  current (steps W H 2 s) = current s.
Proof.
  intros HW HH Hwf Hc Hs. cbn [steps]. rewrite Hs.
  replace (blinker W H o cx cy) with (blinker W H (turn (turn o)) cx cy)
    by (rewrite turn_turn; reflexivity).
  apply step_blinker; try assumption; [apply computeStep_wf, Hwf|].
  apply step_blinker; assumption.
Qed.

(** The configuration the program is compiled with meets every size
    condition used below. *)
Fact program_configuration :
  valid_size (WIDTH, HEIGHT) /\ 4 <= WIDTH /\ 4 <= HEIGHT /\ WIDTH mod 4 = 0 /\
  WIDTH * HEIGHT < 2 ^ 31 /\
  uint32 ((WIDTH + 15) ÷ 16) = 125 /\ uint32 ((HEIGHT + 15) ÷ 16) = 125.
Proof. repeat split; vm_compute; congruence. Qed.

(** The two patterns on the grid the program runs: 2000 x 2000. *)
Lemma program_blinker_period_two o cx cy s :
  wf_state WIDTH HEIGHT s -> in_bounds (WIDTH, HEIGHT) (cx, cy) = true ->
  current s = image_of WIDTH HEIGHT (blinker WIDTH HEIGHT o cx cy) ->
  current (steps WIDTH HEIGHT 2 s) = current s.
Proof.
  intros Hwf Hc Hs.
  destruct program_configuration as (_ & HW & HH & _).
  exact (blinker_two_steps WIDTH HEIGHT o cx cy s HW HH Hwf Hc Hs).
Qed.

Lemma program_block_is_still cx cy s :
  wf_state WIDTH HEIGHT s -> in_bounds (WIDTH, HEIGHT) (cx, cy) = true ->
  current s = image_of WIDTH HEIGHT (block WIDTH HEIGHT cx cy) ->
  current (fst (computeStep WIDTH HEIGHT GL_NO_ERROR s)) = current s.
Proof.
  intros Hwf Hc Hs.
  destruct program_configuration as (_ & HW & HH & _).
  assert (HW3 : 3 <= WIDTH) by lia. assert (HH3 : 3 <= HEIGHT) by lia.
  pose proof (step_block WIDTH HEIGHT cx cy s HW3 HH3 Hwf Hc Hs) as Hstep.
  exact (eq_trans Hstep (eq_sym Hs)).
Qed.

(** * The claims *)



(** C2. The live-neighbour count that decides a cell in a step is taken over
    the eight positions [(p + (dx, dy)) mod (W, H)], [dx] and [dy] in
    [{-1, 0, 1}] without [(0, 0)]; the neighbours of cell [(0, 0)] include
    [(W-1, H-1)], [(W-1, 0)] and [(0, H-1)]. *)
Theorem C2_toroidal_neighbourhood W H s x y :
  wf_state W H s -> in_bounds (W, H) (x, y) = true ->
  liveNeighbors (current s) (x, y)
    = live_count (current s) (torus_neighbors (W, H) (x, y)) /\
  texel (current (fst (computeStep W H GL_NO_ERROR s))) (x, y)
    = Some (cell_of_bool
              (rule (isAlive (current s) (x, y))
                    (live_count (current s) (torus_neighbors (W, H) (x, y))))) /\
  torus_neighbors (W, H) (x, y) =
    [ ((x + -1) mod W, (y + -1) mod H); ((x + 0) mod W, (y + -1) mod H);
      ((x + 1) mod W, (y + -1) mod H);
      ((x + -1) mod W, (y + 0) mod H); ((x + 1) mod W, (y + 0) mod H);
      ((x + -1) mod W, (y + 1) mod H); ((x + 0) mod W, (y + 1) mod H);
      ((x + 1) mod W, (y + 1) mod H) ] /\
  In (W - 1, H - 1) (torus_neighbors (W, H) (0, 0)) /\
  In (W - 1, 0) (torus_neighbors (W, H) (0, 0)) /\
  In (0, H - 1) (torus_neighbors (W, H) (0, 0)) /\
  neighborPos (W, H) (0, 0) (-1) (-1) = (W - 1, H - 1) /\
  neighborPos (W, H) (0, 0) (-1) 0 = (W - 1, 0) /\
  neighborPos (W, H) (0, 0) 0 (-1) = (0, H - 1).
Proof.
  intros Hwf Hp.
  destruct (wf_current _ _ _ Hwf) as [[Hvs _] Hsz].
  assert (Hn : liveNeighbors (current s) (x, y)
               = live_count (current s) (torus_neighbors (W, H) (x, y))).
  { rewrite <- Hsz. apply liveNeighbors_torus; [assumption|].
    rewrite Hsz. exact Hp. }
  split; [exact Hn|].
  split; [rewrite computeStep_texel, nextCell_rule, Hn by assumption;
          reflexivity|].
  split; [reflexivity|].
  assert (Hvs' : valid_size (W, H)) by (rewrite <- Hsz; exact Hvs).
  assert (H00 : in_bounds (W, H) (0, 0) = true).
  { rewrite Hsz in Hvs. destruct Hvs. apply in_bounds_iff; simpl in *. lia. }
  rewrite Hsz in Hvs. destruct Hvs as [HW HH]; simpl in HW, HH.
  assert (Ex : (0 + -1) mod W = W - 1).
  { rewrite (pred_mod W 0) by lia. simpl. lia. }
  assert (Ey : (0 + -1) mod H = H - 1).
  { rewrite (pred_mod H 0) by lia. simpl. lia. }
  assert (Zx : (0 + 0) mod W = 0) by (apply Z.mod_small; lia).
  assert (Zy : (0 + 0) mod H = 0) by (apply Z.mod_small; lia).
  rewrite !neighborPos_mod by (assumption || lia).
  unfold torus_neighbors. cbn -[Z.modulo Z.add Z.sub].
  rewrite Ex, Ey, Zx, Zy. tauto.
Qed.

Lemma C2_toroidal_neighbourhood_witness :
  wf_state 5 5 blinker_state /\ in_bounds (5, 5) (0, 0) = true /\
  torus_neighbors (5, 5) (0, 0) =
    [(4, 4); (0, 4); (1, 4); (4, 0); (1, 0); (4, 1); (0, 1); (1, 1)] /\
  liveNeighbors (current blinker_state) (0, 0)
    = live_count (current blinker_state) (torus_neighbors (5, 5) (0, 0)).
Proof.
  assert (Hwf : wf_state 5 5 blinker_state) by concrete.
  assert (Hp : in_bounds (5, 5) (0, 0) = true) by reflexivity.
  split; [exact Hwf|]. split; [exact Hp|]. split; [reflexivity|].
  exact (proj1 (C2_toroidal_neighbourhood 5 5 blinker_state 0 0 Hwf Hp)).
Defined.


(** C4. After a successful step, the texture that was writable holds the
    next generation of the grid that was current, computed cell by cell by
    the rule over the toroidal neighbourhood; [current] now returns that
    texture and [writable] returns the grid that was current, untouched.
    [swap] changes the index and nothing else. *)
Theorem C4_buffer_roles_after_step W H s :
  wf_state W H s ->
  let s' := fst (computeStep W H GL_NO_ERROR s) in
  let written := at2 (images s') (uint32 (1 - currentTextureIdx s)) in
  img_size written = (W, H) /\
  (forall pos, in_bounds (W, H) pos = true ->
     texel written pos =
     Some (cell_of_bool
             (rule (isAlive (current s) pos)
                   (live_count (current s) (torus_neighbors (W, H) pos))))) /\
  current s' = written /\
  writable s' = current s /\
  at2 (images s') (currentTextureIdx s) = current s /\
  snd (computeStep W H GL_NO_ERROR s) = [] /\
  (forall t, images (swap t) = images t /\ textures (swap t) = textures t /\
             currentTextureIdx (swap t) = uint32 (1 - currentTextureIdx t) /\
             current (swap t) = writable t).
Proof.
  intros Hwf s' written.
  assert (Hcw : current s' = written) by reflexivity.
  pose proof (computeStep_wf W H GL_NO_ERROR s Hwf) as Hwf'.
  destruct (wf_current _ _ _ Hwf) as [[Hvs _] Hsz].
  destruct (wf_current _ _ _ Hwf') as [_ Hsz'].
  pose proof Hwf as (Hi & _).
  split; [rewrite <- Hcw; exact Hsz'|].
  split.
  { intros [x y] Hp. rewrite <- Hcw. unfold s'.
    rewrite computeStep_texel, nextCell_rule by assumption.
    rewrite <- Hsz at 1.
    rewrite liveNeighbors_torus, Hsz; [reflexivity|assumption|].
    rewrite Hsz. exact Hp. }
  split; [exact Hcw|].
  split; [apply computeStep_writable, Hwf|].
  split.
  { unfold s', current. simpl. rewrite (uint32_flip _ Hi).
    destruct Hi as [-> | ->]; reflexivity. }
  split; [reflexivity|].
  intros t. repeat split.
Qed.

Lemma C4_buffer_roles_after_step_witness :
  wf_state 5 5 blinker_state /\
  current (fst (computeStep 5 5 GL_NO_ERROR blinker_state))
    = image_of 5 5 (blinker 5 5 Vertical 2 2) /\
  writable (fst (computeStep 5 5 GL_NO_ERROR blinker_state))
    = current blinker_state.
Proof.
  assert (Hwf : wf_state 5 5 blinker_state) by concrete.
  split; [exact Hwf|]. split; [vm_compute; reflexivity|].
  exact (proj1 (proj2 (proj2 (proj2
           (C4_buffer_roles_after_step 5 5 blinker_state Hwf))))).
Defined.

(** C6. On a grid of at least 4 x 4 cells (the program's is 2000 x 2000)
    whose current generation is a blinker, three ALIVE cells in a row or in
    a column around any centre and every other cell DEAD, two steps bring
    the current grid back to the blinker, and one step does not. *)
Theorem C6_blinker_period_two W H o cx cy s :
  4 <= W -> 4 <= H -> wf_state W H s ->
  in_bounds (W, H) (cx, cy) = true ->
  current s = image_of W H (blinker W H o cx cy) ->
  current (steps W H 2 s) = current s /\
  current (steps W H 1 s) = image_of W H (blinker W H (turn o) cx cy) /\
  current (steps W H 1 s) <> current s.
Proof.
  intros HW HH Hwf Hc Hs.
  destruct (wf_current _ _ _ Hwf) as [[Hvs _] Hsz]. rewrite Hsz in Hvs.
  assert (H1 : current (steps W H 1 s)
               = image_of W H (blinker W H (turn o) cx cy))
    by (apply step_blinker; assumption).
  split; [|split; [exact H1|]].
  - apply (blinker_two_steps W H o cx cy); assumption.
  - rewrite H1, Hs. apply blinker_turn_differs; assumption.
Qed.

Lemma C6_blinker_period_two_witness :
  4 <= 5 /\ wf_state 5 5 blinker_state /\ in_bounds (5, 5) (2, 2) = true /\
  current blinker_state = image_of 5 5 (blinker 5 5 Horizontal 2 2) /\
  current (steps 5 5 2 blinker_state) = current blinker_state.
Proof.
  assert (Hwf : wf_state 5 5 blinker_state) by concrete.
  split; [lia|]. split; [exact Hwf|]. split; [reflexivity|].
  split; [reflexivity|].
  exact (proj1 (C6_blinker_period_two 5 5 Horizontal 2 2 blinker_state
                  ltac:(lia) ltac:(lia) Hwf eq_refl eq_refl)).
Defined.

(** C7. On a grid of at least 3 x 3 cells whose current generation is a
    2 x 2 block of ALIVE cells, anywhere on the torus, with every other cell
    DEAD, one step leaves the current grid as it was. *)
Theorem C7_block_is_still W H cx cy s :
  3 <= W -> 3 <= H -> wf_state W H s ->
  in_bounds (W, H) (cx, cy) = true ->
  current s = image_of W H (block W H cx cy) ->
  current (fst (computeStep W H GL_NO_ERROR s)) = current s.
Proof.
  intros HW HH Hwf Hc Hs.
  rewrite (step_block W H cx cy s) by assumption. symmetry. exact Hs.
Qed.

Lemma C7_block_is_still_witness :
  3 <= 3 /\ wf_state 3 3 block_state /\ in_bounds (3, 3) (2, 2) = true /\
  current block_state = image_of 3 3 (block 3 3 2 2) /\
  current (fst (computeStep 3 3 GL_NO_ERROR block_state)) = current block_state.
Proof.
  assert (Hwf : wf_state 3 3 block_state) by concrete.
  split; [lia|]. split; [exact Hwf|]. split; [reflexivity|].
  split; [reflexivity|].
  exact (C7_block_is_still 3 3 2 2 block_state
           ltac:(lia) ltac:(lia) Hwf eq_refl eq_refl).
Defined.

(** C8, as the code has it. [initializeGrid] has no density parameter. On a
    [W] x [H] configuration whose rows need no padding it fills texture 0,
    the current grid, cell by cell from [W * H] successive results of
    [rand()]: cell [i] is ALIVE when the [i]-th result is odd and DEAD when
    it is even; the other texture is left as it was. The share of ALIVE is
    fixed by the parity test: of the values [0 .. 2k-1] exactly [k] give
    ALIVE. *)
Theorem C8_initializeGrid_fills_by_parity
    (rand_state : Type) (rand : rand_state -> Z * rand_state) W H s g :
  wf_state W H s -> W mod 4 = 0 -> W * H < 2 ^ 31 ->
  currentTextureIdx s = 0 ->
  let s' := fst (fst (initializeGrid rand_state rand W H s g)) in
  let rs := fst (draws rand_state rand (Z.to_nat (W * H)) g) in
  current s' = Image (W, H) (cell_of_rand <$> rs) /\
  length rs = Z.to_nat (W * H) /\
  (forall i r, rs !! i = Some r ->
     img_texels (current s') !! i = Some (if Z.odd r then ALIVE else DEAD)) /\
  writable s' = writable s /\
  (forall k : nat, alive_values (2 * Z.of_nat k - 1) = Z.of_nat k).
Proof.
  intros Hwf Hal _ Hi s' rs. unfold s'.
  rewrite initializeGrid_spec by assumption. cbn [fst].
  unfold current, writable. cbn [images currentTextureIdx]. rewrite Hi.
  cbn [at2 Z.eqb fst snd]. fold rs.
  split; [reflexivity|]. split; [apply draws_length|].
  split; [|split; [reflexivity|]].
  - intros i r Hr. cbn [img_texels].
    rewrite list_lookup_fmap, Hr. simpl. rewrite cell_of_rand_odd. reflexivity.
  - intros k. unfold alive_values.
    replace (2 * Z.of_nat k - 1 + 1) with (Z.of_nat (2 * k)) by lia.
    rewrite alive_values_half. reflexivity.
Qed.

Lemma C8_initializeGrid_fills_by_parity_witness :
  wf_state 4 2 (fresh_state 7 9) /\ 4 mod 4 = 0 /\ 4 * 2 < 2 ^ 31 /\
  currentTextureIdx (fresh_state 7 9) = 0 /\
  fst (draws Z example_rand 8 (example_srand 1))
    = [16838; 5758; 10113; 17515; 31051; 5627; 23010; 7419] /\
  current (fst (fst (initializeGrid Z example_rand 4 2 (fresh_state 7 9)
                       (example_srand 1))))
    = Image (4, 2) [0; 0; 255; 255; 255; 255; 0; 255].
Proof.
  assert (Hwf : wf_state 4 2 (fresh_state 7 9)) by concrete.
  split; [exact Hwf|]. split; [reflexivity|]. split; [reflexivity|].
  split; [reflexivity|]. split; [vm_compute; reflexivity|].
  rewrite (proj1 (C8_initializeGrid_fills_by_parity Z example_rand 4 2
                    (fresh_state 7 9) (example_srand 1) Hwf eq_refl eq_refl
                    eq_refl)).
  vm_compute. reflexivity.
Defined.

(** C8, as stated, fails: the share of ALIVE cells cannot be configured.
    With [RAND_MAX = 32767] a cell is ALIVE for exactly half of the values
    of [rand()], so it is not a Bernoulli(1/4) sample, whatever density is
    asked for. *)
Lemma C8_density_is_not_configurable :
  bernoulli_cell 32767 (1 # 2) /\ ~ bernoulli_cell 32767 (1 # 4).
Proof.
  unfold bernoulli_cell, alive_fraction, alive_values.
  change (32767 + 1) with (Z.of_nat (2 * Z.to_nat 16384)).
  rewrite alive_values_half.
  split; [reflexivity|]. intros E. vm_compute in E. discriminate E.
Qed.



(** C10. The program never seeds the generator, so every run starts
    [initializeGrid] with the generator as [srand(1)] leaves it. Two runs on
    the same [W] x [H] configuration then start from the same generation,
    whatever the freshly allocated textures held: the grid cut from the
    first [W * H] results of the default sequence. *)
Theorem C10_unseeded_runs_start_alike
    (rand_state : Type) (srand : Z -> rand_state)
    (rand : rand_state -> Z * rand_state) W H s1 s2 :
  wf_state W H s1 -> wf_state W H s2 -> W mod 4 = 0 -> W * H < 2 ^ 31 ->
  currentTextureIdx s1 = 0 -> currentTextureIdx s2 = 0 ->
  current (main_initializeGrid rand_state srand rand W H s1)
    = current (main_initializeGrid rand_state srand rand W H s2) /\
  current (main_initializeGrid rand_state srand rand W H s1)
    = Image (W, H)
        (cell_of_rand <$>
           fst (draws rand_state rand (Z.to_nat (W * H)) (srand 1))).
Proof.
  intros Hwf1 Hwf2 Hal _ Hi1 Hi2. unfold main_initializeGrid.
  rewrite !initializeGrid_spec by assumption. cbn [fst].
  unfold current. cbn [images currentTextureIdx]. rewrite Hi1, Hi2.
  split; reflexivity.
Qed.

Lemma C10_unseeded_runs_start_alike_witness :
  wf_state 4 2 (fresh_state 7 9) /\ wf_state 4 2 (fresh_state 0 200) /\
  4 mod 4 = 0 /\ 4 * 2 < 2 ^ 31 /\
  current (main_initializeGrid Z example_srand example_rand 4 2
             (fresh_state 7 9))
  = current (main_initializeGrid Z example_srand example_rand 4 2
               (fresh_state 0 200)).
Proof.
  assert (Hwf1 : wf_state 4 2 (fresh_state 7 9)) by concrete.
  assert (Hwf2 : wf_state 4 2 (fresh_state 0 200)) by concrete.
  split; [exact Hwf1|]. split; [exact Hwf2|]. split; [reflexivity|].
  split; [reflexivity|].
  exact (proj1 (C10_unseeded_runs_start_alike Z example_srand example_rand 4 2
                  (fresh_state 7 9) (fresh_state 0 200)
                  Hwf1 Hwf2 eq_refl eq_refl eq_refl eq_refl)).
Defined.


(** * Further properties of the program *)

(** ** The kernel and the dispatch *)

Lemma nextGeneration_well_formed img :
  valid_size (img_size img) -> well_formed (nextGeneration img).
Proof.
  intros Hs. apply image_of_well_formed.
  destruct (img_size img); exact Hs.
Qed.

Lemma nextGeneration_size img : img_size (nextGeneration img) = img_size img.
Proof. unfold nextGeneration. simpl. destruct (img_size img); reflexivity. Qed.

Lemma texel_nextGeneration img pos :
  in_bounds (img_size img) pos = true ->
  texel (nextGeneration img) pos = Some (nextCell img pos).
Proof.
  intros Hp. unfold nextGeneration. destruct pos as [x y].
  destruct (img_size img) as [W H] eqn:Hsz. simpl.
  rewrite texel_image_of by exact Hp.
  rewrite nextCell_rule. reflexivity.
Qed.

Lemma globalInvocationIDs_within gx gy x y :
  In (x, y) (globalInvocationIDs gx gy) ->
  0 <= x < gx * local_size /\ 0 <= y < gy * local_size.
Proof.
  intros Hin%list_elem_of_In. unfold globalInvocationIDs in Hin.
  apply list_elem_of_bind in Hin as (wy & Hin & Hwy%elem_of_seqZ).
  apply list_elem_of_bind in Hin as (wx & Hin & Hwx%elem_of_seqZ).
  unfold workGroupInvocations in Hin.
  apply list_elem_of_bind in Hin as (ly & Hin & Hly%elem_of_seqZ).
  apply list_elem_of_bind in Hin as (lx & Hin & Hlx%elem_of_seqZ).
  apply list_elem_of_singleton in Hin. inversion Hin; subst.
  unfold local_size in *. lia.
Qed.

(** X1. Any sequence of invocations that reaches every cell of the grid, in
    any order, with repetitions and with ids outside the grid, leaves in the
    written image the next generation of the image read, whatever the
    written image held before. *)
Theorem dispatch_any_order cur nxt ids :
  well_formed cur -> well_formed nxt -> img_size nxt = img_size cur ->
  (forall pos, in_bounds (img_size cur) pos = true -> In pos ids) ->
  run_invocations cur ids nxt = nextGeneration cur.
Proof.
  intros [Hvs Hlen] Hn Hsz Hcover.
  apply image_ext.
  - apply run_invocations_well_formed, Hn.
  - apply nextGeneration_well_formed, Hvs.
  - rewrite run_invocations_size, nextGeneration_size. exact Hsz.
  - intros pos Hp. rewrite run_invocations_size, Hsz in Hp.
    rewrite texel_run_invocations, texel_nextGeneration; auto.
Qed.

Lemma dispatch_any_order_witness :
  run_invocations (current blinker_state)
    (rev (globalInvocationIDs 1 1) ++ [(7, 9); (0, 0)])
    (Image (5, 5) (replicate 25 77))
  = image_of 5 5 (blinker 5 5 Vertical 2 2).
Proof.
  assert (Hc : well_formed (current blinker_state)) by concrete.
  assert (Hn : well_formed (Image (5, 5) (replicate 25 77))) by concrete.
  rewrite (dispatch_any_order (current blinker_state)
             (Image (5, 5) (replicate 25 77))
             (rev (globalInvocationIDs 1 1) ++ [(7, 9); (0, 0)]) Hc Hn eq_refl).
  - vm_compute. reflexivity.
  - intros [x y] Hp. apply in_or_app. left. apply in_rev. rewrite rev_involutive.
    apply in_bounds_iff in Hp. simpl in Hp.
    apply globalInvocationIDs_covers; unfold local_size; lia.
Defined.

(** X2. What a dispatch of [gx] x [gy] work groups writes: the cells with
    [x < 16 gx] and [y < 16 gy] hold the rule's result, every other cell of
    the written image keeps its byte. Fewer groups than the grid needs
    leave the columns and rows beyond them stale; more groups change
    nothing, their invocations outside the grid return at the guard. *)
Theorem dispatch_writes_the_covered_cells cur nxt gx gy x y :
  well_formed cur -> well_formed nxt -> img_size nxt = img_size cur ->
  in_bounds (img_size cur) (x, y) = true ->
  img_size (glDispatchCompute GL_NO_ERROR cur nxt gx gy) = img_size cur /\
  texel (glDispatchCompute GL_NO_ERROR cur nxt gx gy) (x, y) =
    if (x <? gx * 16) && (y <? gy * 16)
    then Some (nextCell cur (x, y))
    else texel nxt (x, y).
Proof.
  intros Hc Hn Hsz Hp. unfold glDispatchCompute. simpl.
  split; [rewrite run_invocations_size; exact Hsz|].
  pose proof Hp as Hxy%in_bounds_iff. simpl in Hxy.
  destruct (Z.ltb_spec x (gx * 16)); destruct (Z.ltb_spec y (gy * 16)); simpl.
  - apply texel_run_invocations; auto.
    apply globalInvocationIDs_covers; unfold local_size; lia.
  - apply texel_run_invocations_skip.
    intros Hin%globalInvocationIDs_within. unfold local_size in Hin. lia.
  - apply texel_run_invocations_skip.
    intros Hin%globalInvocationIDs_within. unfold local_size in Hin. lia.
  - apply texel_run_invocations_skip.
    intros Hin%globalInvocationIDs_within. unfold local_size in Hin. lia.
Qed.

Lemma dispatch_writes_the_covered_cells_witness :
  texel (glDispatchCompute GL_NO_ERROR
           (image_of 20 3 (fun _ _ => true))
           (Image (20, 3) (replicate 60 77)) 1 1) (15, 2) = Some 0 /\
  texel (glDispatchCompute GL_NO_ERROR
           (image_of 20 3 (fun _ _ => true))
           (Image (20, 3) (replicate 60 77)) 1 1) (16, 2) = Some 77.
Proof.
  assert (Hc : well_formed (image_of 20 3 (fun _ _ => true))) by concrete.
  assert (Hn : well_formed (Image (20, 3) (replicate 60 77))) by concrete.
  split.
  - rewrite (proj2 (dispatch_writes_the_covered_cells _ _ 1 1 15 2
                      Hc Hn eq_refl eq_refl)).
    vm_compute. reflexivity.
  - rewrite (proj2 (dispatch_writes_the_covered_cells _ _ 1 1 16 2
                      Hc Hn eq_refl eq_refl)).
    vm_compute. reflexivity.
Defined.

Lemma torus_neighbors_in_bounds size pos :
  valid_size size ->
  Forall (fun p => in_bounds size p = true) (torus_neighbors size pos).
Proof.
  intros [Hw Hh]. unfold torus_neighbors. cbn -[Z.modulo Z.add].
  repeat constructor; apply in_bounds_iff; simpl;
    split; apply mod_in_range; lia.
Qed.

Lemma live_count_ext a b ps :
  Forall (fun p => isAlive a p = isAlive b p) ps ->
  live_count a ps = live_count b ps.
Proof.
  induction 1 as [|p ps Hp _ IH]; simpl; [reflexivity|].
  rewrite Hp, IH. reflexivity.
Qed.

(** X3. A step reads of its input only which cells are above the midpoint:
    two states whose current grids have the same live cells, whatever their
    bytes and whatever the other texture holds, have the same current grid
    after a successful step. *)
Theorem step_reads_liveness_only W H s1 s2 :
  wf_state W H s1 -> wf_state W H s2 ->
  (forall pos, in_bounds (W, H) pos = true ->
     isAlive (current s1) pos = isAlive (current s2) pos) ->
  current (fst (computeStep W H GL_NO_ERROR s1))
  = current (fst (computeStep W H GL_NO_ERROR s2)).
Proof.
  intros Hwf1 Hwf2 Hsame.
  rewrite !computeStep_as_image_of by assumption.
  destruct (wf_current _ _ _ Hwf1) as [[Hvs1 _] Hsz1].
  destruct (wf_current _ _ _ Hwf2) as [[Hvs2 _] Hsz2].
  assert (Hvs : valid_size (W, H)) by (rewrite <- Hsz1; exact Hvs1).
  apply image_of_ext; [exact Hvs|].
  intros x y Hp. rewrite (Hsame _ Hp). f_equal.
  rewrite !liveNeighbors_torus by (rewrite ?Hsz1, ?Hsz2; assumption).
  rewrite Hsz1, Hsz2. apply live_count_ext.
  eapply Forall_impl; [apply torus_neighbors_in_bounds, Hvs|].
  intros p Hb. apply Hsame, Hb.
Qed.

Lemma step_reads_liveness_only_witness :
  current (fst (computeStep 4 4 GL_NO_ERROR grey_state))
  = current (fst (computeStep 4 4 GL_NO_ERROR
       (Visualizer (5, 6)
          (blank 4 4,
           image_of 4 4 (fun x y => isAlive (current grey_state) (x, y))) 1))).
Proof.
  assert (H1 : wf_state 4 4 grey_state) by concrete.
  assert (H2 : wf_state 4 4
       (Visualizer (5, 6)
          (blank 4 4,
           image_of 4 4 (fun x y => isAlive (current grey_state) (x, y))) 1))
    by concrete.
  apply (step_reads_liveness_only 4 4 _ _ H1 H2).
  intros [x y] Hp. apply in_bounds_iff in Hp. simpl in Hp.
  assert (Hx : x = 0 \/ x = 1 \/ x = 2 \/ x = 3) by lia.
  assert (Hy : y = 0 \/ y = 1 \/ y = 2 \/ y = 3) by lia.
  destruct Hx as [-> | [-> | [-> | ->]]];
    destruct Hy as [-> | [-> | [-> | ->]]]; vm_compute; reflexivity.
Defined.

Lemma generation_shift W H a b P x y :
  generation W H (shift W H a b P) x y
  = shift W H a b (generation W H P) x y.
Proof.
  unfold generation, shift.
  rewrite !(Zplus_mod_idemp_l (x + a)), !(Zplus_mod_idemp_l (y + b)).
  rewrite !(Zplus_mod_idemp_l (x + -1)), !(Zplus_mod_idemp_l (x + 1)).
  rewrite !(Zplus_mod_idemp_l (y + -1)), !(Zplus_mod_idemp_l (y + 1)).
  replace (x + -1 + a) with (x + a + -1) by lia.
  replace (x + 1 + a) with (x + a + 1) by lia.
  replace (y + -1 + b) with (y + b + -1) by lia.
  replace (y + 1 + b) with (y + b + 1) by lia.
  reflexivity.
Qed.

(** X4. A step commutes with moving the grid over the torus: when the
    current grid is a pattern moved by [(a, b)], wrapping at the edges, the
    grid after a successful step is the pattern's next generation moved by
    [(a, b)]. *)
Theorem step_commutes_with_shift W H a b P s :
  wf_state W H s -> current s = image_of W H (shift W H a b P) ->
  current (fst (computeStep W H GL_NO_ERROR s))
  = image_of W H (shift W H a b (generation W H P)).
Proof.
  intros Hwf Hs.
  destruct (wf_current _ _ _ Hwf) as [[Hvs _] Hsz]. rewrite Hsz in Hvs.
  rewrite (computeStep_image_of W H s _ Hwf Hs).
  apply image_of_ext; [exact Hvs|].
  intros x y _. apply generation_shift.
Qed.

Lemma step_commutes_with_shift_witness :
  current (fst (computeStep 5 5 GL_NO_ERROR
     (Visualizer (1, 2)
        (image_of 5 5 (shift 5 5 3 4 (blinker 5 5 Horizontal 2 2)),
         blank 5 5) 0)))
  = image_of 5 5 (blinker 5 5 Vertical 4 3).
Proof.
  rewrite (step_commutes_with_shift 5 5 3 4 (blinker 5 5 Horizontal 2 2)
             (Visualizer (1, 2)
                (image_of 5 5 (shift 5 5 3 4 (blinker 5 5 Horizontal 2 2)),
                 blank 5 5) 0)
             ltac:(concrete) eq_refl).
  vm_compute. reflexivity.
Defined.

(** X5. A grid with no live cell stays so, and a grid with every cell live
    has no live cell after one step, on every grid size: each cell counts
    eight live neighbours even where the eight positions coincide, as on a
    1 x 1 or 2 x 2 torus. *)
Theorem uniform_grid_dies W H (live : bool) s :
  wf_state W H s -> current s = image_of W H (fun _ _ => live) ->
  current (fst (computeStep W H GL_NO_ERROR s))
  = image_of W H (fun _ _ => false).
Proof.
  intros Hwf Hs.
  destruct (wf_current _ _ _ Hwf) as [[Hvs _] Hsz]. rewrite Hsz in Hvs.
  rewrite (computeStep_image_of W H s _ Hwf Hs).
  apply image_of_ext; [exact Hvs|].
  intros x y _. unfold generation. destruct live; reflexivity.
Qed.

Lemma uniform_grid_dies_witness :
  current (fst (computeStep 1 1 GL_NO_ERROR
     (Visualizer (1, 2) (Image (1, 1) [255], Image (1, 1) [33]) 0)))
  = Image (1, 1) [0].
Proof.
  rewrite (uniform_grid_dies 1 1 true
             (Visualizer (1, 2) (Image (1, 1) [255], Image (1, 1) [33]) 0)
             ltac:(concrete) eq_refl).
  reflexivity.
Defined.

(** ** Frames *)

Lemma run_steps_cons W H err errs s :
  run_steps W H (err :: errs) s
  = run_steps W H errs (fst (computeStep W H err s)).
Proof. reflexivity. Qed.

Lemma computeStep_textures W H err s :
  textures (fst (computeStep W H err s)) = textures s.
Proof. reflexivity. Qed.

Lemma run_steps_wf W H errs s :
  wf_state W H s -> wf_state W H (run_steps W H errs s).
Proof.
  revert s. induction errs as [|err errs IH]; intros s Hwf; [exact Hwf|].
  rewrite run_steps_cons. apply IH, computeStep_wf, Hwf.
Qed.

(** X6. Whatever the dispatches report, after [n] frames both textures are
    still [W] x [H] images, the texture names are the ones allocated, and
    [currentTextureIdx] is the initial index plus [n], modulo 2: the roles
    alternate every frame, failed or not. *)
Theorem run_steps_index_parity W H errs s :
  wf_state W H s ->
  wf_state W H (run_steps W H errs s) /\
  textures (run_steps W H errs s) = textures s /\
  currentTextureIdx (run_steps W H errs s)
  = (currentTextureIdx s + Z.of_nat (length errs)) mod 2.
Proof.
  revert s. induction errs as [|err errs IH]; intros s Hwf.
  - split; [exact Hwf|]. split; [reflexivity|].
    change (run_steps W H [] s) with s.
    destruct Hwf as ([-> | ->] & _); reflexivity.
  - rewrite run_steps_cons.
    destruct (IH _ (computeStep_wf W H err s Hwf)) as (Hw & Hn & Hi).
    split; [exact Hw|]. split; [rewrite Hn; apply computeStep_textures|].
    rewrite Hi, computeStep_idx by (apply Hwf).
    destruct Hwf as (Hidx & _). simpl length.
    replace (1 - currentTextureIdx s + Z.of_nat (length errs))
      with (currentTextureIdx s + Z.of_nat (S (length errs))
            + (- currentTextureIdx s) * 2) by lia.
    apply Z_mod_plus_full.
Qed.

Lemma run_steps_index_parity_witness :
  wf_state 5 5 blinker_state /\
  currentTextureIdx
    (run_steps 5 5 [GL_NO_ERROR; GL_INVALID_OPERATION; GL_NO_ERROR]
       blinker_state) = 1.
Proof.
  assert (Hwf : wf_state 5 5 blinker_state) by concrete.
  split; [exact Hwf|].
  rewrite (proj2 (proj2 (run_steps_index_parity 5 5
             [GL_NO_ERROR; GL_INVALID_OPERATION; GL_NO_ERROR]
             blinker_state Hwf))).
  reflexivity.
Defined.

Lemma failed_step W H err s :
  err <> GL_NO_ERROR ->
  fst (computeStep W H err s) = swap s.
Proof.
  intros Herr%Z.eqb_neq. unfold computeStep, glDispatchCompute.
  rewrite Herr. cbn [fst]. unfold swap. cbn [textures images currentTextureIdx].
  f_equal. destruct (images s) as [i0 i1]. unfold set2, at2.
  destruct (uint32 (1 - currentTextureIdx s) =? 0); reflexivity.
Qed.

(** X7. Two failed frames in a row leave the visualizer exactly as it was:
    nothing is written and the index flips twice. *)
Theorem two_failed_steps_restore W H err1 err2 s :
  err1 <> GL_NO_ERROR -> err2 <> GL_NO_ERROR -> wf_state W H s ->
  fst (computeStep W H err2 (fst (computeStep W H err1 s))) = s.
Proof.
  intros H1 H2 (Hi & _). rewrite !failed_step by assumption.
  destruct s as [names imgs idx]. unfold swap. simpl in *.
  f_equal. destruct Hi as [-> | ->]; reflexivity.
Qed.

Lemma two_failed_steps_restore_witness :
  GL_INVALID_OPERATION <> GL_NO_ERROR /\ GL_INVALID_VALUE <> GL_NO_ERROR /\
  wf_state 5 5 blinker_state /\
  fst (computeStep 5 5 GL_INVALID_VALUE
         (fst (computeStep 5 5 GL_INVALID_OPERATION blinker_state)))
  = blinker_state.
Proof.
  assert (H1 : GL_INVALID_OPERATION <> GL_NO_ERROR) by (vm_compute; congruence).
  assert (H2 : GL_INVALID_VALUE <> GL_NO_ERROR) by (vm_compute; congruence).
  assert (Hwf : wf_state 5 5 blinker_state) by concrete.
  split; [exact H1|]. split; [exact H2|]. split; [exact Hwf|].
  exact (two_failed_steps_restore 5 5 _ _ blinker_state H1 H2 Hwf).
Defined.

Lemma computeStep_nextGeneration W H s :
  wf_state W H s ->
  current (fst (computeStep W H GL_NO_ERROR s)) = nextGeneration (current s).
Proof.
  intros Hwf. rewrite computeStep_as_image_of by assumption.
  destruct (wf_current _ _ _ Hwf) as [_ Hsz].
  unfold nextGeneration. rewrite Hsz. reflexivity.
Qed.

(** X8. A failed frame after a successful one draws the generation before
    the last again, since the flip makes the stale texture current; the
    next successful frame then computes the last generation a second time.
    The failure costs the simulation one generation and two frames. *)
Theorem failed_step_goes_back_one_generation W H err s :
  err <> GL_NO_ERROR -> wf_state W H s ->
  let s1 := fst (computeStep W H GL_NO_ERROR s) in
  let s2 := fst (computeStep W H err s1) in
  let s3 := fst (computeStep W H GL_NO_ERROR s2) in
  current s1 = nextGeneration (current s) /\
  current s2 = current s /\
  current s3 = current s1.
Proof.
  intros Herr Hwf s1 s2 s3.
  pose proof (computeStep_wf W H GL_NO_ERROR s Hwf) as Hwf1.
  pose proof (computeStep_wf W H err s1 Hwf1) as Hwf2.
  assert (E1 : current s1 = nextGeneration (current s))
    by (apply computeStep_nextGeneration, Hwf).
  assert (E2 : current s2 = current s).
  { unfold s2. rewrite failed_step by assumption.
    change (current (swap s1)) with (writable s1).
    apply computeStep_writable, Hwf. }
  split; [exact E1|]. split; [exact E2|].
  unfold s3. rewrite computeStep_nextGeneration by exact Hwf2.
  rewrite E2, E1. reflexivity.
Qed.

Lemma failed_step_goes_back_one_generation_witness :
  GL_INVALID_OPERATION <> GL_NO_ERROR /\ wf_state 5 5 blinker_state /\
  current (run_steps 5 5 [GL_NO_ERROR; GL_INVALID_OPERATION] blinker_state)
  = image_of 5 5 (blinker 5 5 Horizontal 2 2) /\
  current (run_steps 5 5 [GL_NO_ERROR; GL_INVALID_OPERATION; GL_NO_ERROR]
             blinker_state)
  = image_of 5 5 (blinker 5 5 Vertical 2 2).
Proof.
  assert (H1 : GL_INVALID_OPERATION <> GL_NO_ERROR) by (vm_compute; congruence).
  assert (Hwf : wf_state 5 5 blinker_state) by concrete.
  split; [exact H1|]. split; [exact Hwf|].
  destruct (failed_step_goes_back_one_generation 5 5 GL_INVALID_OPERATION
              blinker_state H1 Hwf) as (_ & E2 & E3).
  split.
  - exact E2.
  - unfold run_steps. cbn [fold_left]. rewrite E3. vm_compute. reflexivity.
Defined.


Section FrameLoopFacts.

Variable time : Type.
Variable clock : Type.
Variable glfwGetTime : clock -> time * clock.
Variable second_elapsed : time -> time -> bool.


Lemma reported_frames_app (l1 l2 : list (render_diagnostic time)) :
  reported_frames time (l1 ++ l2)
  = reported_frames time l1 + reported_frames time l2.
Proof.
  induction l1 as [|d l1 IH]; simpl; [reflexivity|].
  rewrite IH. destruct d; lia.
Qed.

Lemma fps_update_conserves st c :
  0 <= pending_frames time st < 2 ^ 31 - 1 ->
  reported_frames time
    (snd (fps_update time clock glfwGetTime second_elapsed st c))
  + pending_frames time
      (fst (fst (fps_update time clock glfwGetTime second_elapsed st c)))
  = pending_frames time st + 1 /\
  0 <= pending_frames time
         (fst (fst (fps_update time clock glfwGetTime second_elapsed st c))) /\
  0 <= reported_frames time
         (snd (fps_update time clock glfwGetTime second_elapsed st c)).
Proof.
  intros Hp. unfold fps_update.
  destruct st as [[t n]|]; simpl in Hp.
  - destruct (glfwGetTime c) as [now c2].
    rewrite wrap32_small by lia.
    destruct (second_elapsed now t); simpl; lia.
  - destruct (glfwGetTime c) as [t c1]. destruct (glfwGetTime c1) as [now c2].
    rewrite wrap32_small by lia.
    destruct (second_elapsed now t); simpl; lia.
Qed.

Lemma renderFrame_conserves loc e s st c :
  0 <= pending_frames time st < 2 ^ 31 - 1 ->
  reported_frames time
    (snd (renderFrame time clock glfwGetTime second_elapsed loc e s st c))
  + pending_frames time
      (snd (fst (fst (renderFrame time clock glfwGetTime second_elapsed
                        loc e s st c))))
  = pending_frames time st + 1 /\
  0 <= pending_frames time
         (snd (fst (fst (renderFrame time clock glfwGetTime second_elapsed
                           loc e s st c)))) /\
  0 <= reported_frames time
         (snd (renderFrame time clock glfwGetTime second_elapsed
                 loc e s st c)).
Proof.
  intros Hp. pose proof (fps_update_conserves st c Hp) as Hc.
  unfold renderFrame.
  destruct (fps_update time clock glfwGetTime second_elapsed st c)
    as [[st' c'] log]. cbn [fst snd] in *.
  rewrite !reported_frames_app.
  destruct (useProgram_error e =? GL_NO_ERROR), (loc =? -1),
    (draw_error e =? GL_NO_ERROR); simpl; lia.
Qed.


(** X10. The frame counter of [renderFrame] neither loses a frame nor
    counts one twice: over any run of the loop, the frames reported in the
    FPS lines plus the frames counted since the last line are the frames
    drawn (plus what was pending at the start), as long as the count stays
    within an [int]. *)
Theorem fps_counter_accounts_for_every_frame W H loc frames s st c :
  0 <= pending_frames time st ->
  pending_frames time st + Z.of_nat (frames_run frames) < 2 ^ 31 ->
  reported_frames time
    (concat (map snd (fst (main_loop time clock glfwGetTime second_elapsed
                             W H loc frames s st c))))
  + pending_frames time
      (snd (fst (snd (main_loop time clock glfwGetTime second_elapsed
                        W H loc frames s st c))))
  = pending_frames time st + Z.of_nat (frames_run frames).
Proof.
  revert s st c. induction frames as [|e rest IH]; intros s st c Hp Hlt.
  - simpl. lia.
  - cbn [main_loop frames_run].
    destruct (computeStep W H (dispatch_error e) s) as [s1 clog].
    assert (Hone : (1 <= frames_run (e :: rest))%nat)
      by (simpl; destruct (close_requested e); lia).
    pose proof (renderFrame_conserves loc (render_errors e) s1 st c
                  ltac:(lia)) as (Hc & Hnn & Hrep).
    destruct (renderFrame time clock glfwGetTime second_elapsed loc
                (render_errors e) s1 st c) as [[[drawn st1] c1] rlog].
    cbn [fst snd] in Hc, Hnn, Hrep. simpl in Hlt.
    destruct (close_requested e).
    + cbn [fst snd map concat]. rewrite app_nil_r. lia.
    + specialize (IH s1 st1 c1 Hnn ltac:(lia)).
      destruct (main_loop time clock glfwGetTime second_elapsed W H loc rest
                  s1 st1 c1) as [out [[sf stf] cf]].
      cbn [fst snd map concat] in *.
      rewrite reported_frames_app. lia.
Qed.

End FrameLoopFacts.


Lemma fps_counter_accounts_for_every_frame_witness :
  map snd (fst (main_loop Q Z ticking_clock Q_second_elapsed 5 5 0
                  example_frames blinker_state None 0))
  = [ []; [FPS Q 2 (2 # 2) (0 # 2)];
      [ErrorAfterUseProgram Q GL_INVALID_OPERATION];
      [FPS Q 2 (4 # 2) (2 # 2)]; [] ] /\
  reported_frames Q
    (concat (map snd (fst (main_loop Q Z ticking_clock Q_second_elapsed 5 5 0
                             example_frames blinker_state None 0))))
  + pending_frames Q
      (snd (fst (snd (main_loop Q Z ticking_clock Q_second_elapsed 5 5 0
                        example_frames blinker_state None 0))))
  = 5.
Proof.
  split; [vm_compute; reflexivity|].
  exact (fps_counter_accounts_for_every_frame Q Z ticking_clock
           Q_second_elapsed 5 5 0 example_frames blinker_state None 0
           ltac:(simpl; lia) ltac:(vm_compute; reflexivity)).
Defined.

(** ** Start-up *)


Lemma glTexSubImage2D_shape img xoff yoff w h pixels :
  img_size (fst (glTexSubImage2D img xoff yoff w h pixels)) = img_size img /\
  length (img_texels (fst (glTexSubImage2D img xoff yoff w h pixels)))
  = length (img_texels img).
Proof.
  unfold glTexSubImage2D.
  destruct (_ && _); simpl; [|split; reflexivity].
  split; [reflexivity|]. apply length_imap.
Qed.

Section StartupFacts.

Variable rand_state : Type.
Variable rand : rand_state -> Z * rand_state.

Lemma initializeGrid_fields W H s g :
  textures (fst (fst (initializeGrid rand_state rand W H s g))) = textures s /\
  currentTextureIdx (fst (fst (initializeGrid rand_state rand W H s g)))
  = currentTextureIdx s /\
  snd (images (fst (fst (initializeGrid rand_state rand W H s g))))
  = snd (images s) /\
  fst (images (fst (fst (initializeGrid rand_state rand W H s g))))
  = fst (glTexSubImage2D (fst (images s)) 0 0 W H
           (fst (fill_initialData rand_state rand (Z.to_nat (W * H)) g))).
Proof.
  unfold initializeGrid.
  destruct (fill_initialData rand_state rand (Z.to_nat (W * H)) g) as [d g'].
  cbn [fst].
  destruct (glTexSubImage2D (fst (images s)) 0 0 W H d) as [up err].
  cbn [fst snd textures images currentTextureIdx]. auto.
Qed.

Lemma initializeGrid_wf W H s g :
  wf_state W H s ->
  wf_state W H (fst (fst (initializeGrid rand_state rand W H s g))).
Proof.
  intros (Hi & [Hv0 Hl0] & S0 & H1 & S1).
  destruct (initializeGrid_fields W H s g) as (_ & Ei & E1 & E0).
  unfold wf_state, well_formed. rewrite Ei, E1, E0.
  destruct (glTexSubImage2D_shape (fst (images s)) 0 0 W H
              (fst (fill_initialData rand_state rand (Z.to_nat (W * H)) g)))
    as [Es El].
  rewrite Es, El. auto.
Qed.


(** X12. Every grid the loop draws is binary: from a state with
    [currentTextureIdx = 0], after [initializeGrid] and any number of
    successful steps, none included, every texel of the current grid is 255
    or 0. *)
Theorem every_drawn_grid_is_binary W H s g n :
  wf_state W H s -> currentTextureIdx s = 0 ->
  W mod 4 = 0 -> W * H < 2 ^ 31 ->
  Forall (fun v => v = ALIVE \/ v = DEAD)
    (img_texels
       (current (run_steps W H (replicate n GL_NO_ERROR)
                   (fst (fst (initializeGrid rand_state rand W H s g)))))).
Proof.
  intros Hwf Hi Hal _.
  pose proof (initializeGrid_wf W H s g Hwf) as Hwf1.
  destruct n as [|n].
  - simpl. rewrite initializeGrid_spec by assumption. cbn [fst].
    unfold current. cbn [images currentTextureIdx]. rewrite Hi.
    cbn [at2 Z.eqb fst img_texels].
    apply Forall_fmap, Forall_forall. intros r _. simpl.
    rewrite cell_of_rand_odd. destruct (Z.odd r); auto.
  - replace (replicate (S n) GL_NO_ERROR)
      with (replicate n GL_NO_ERROR ++ [GL_NO_ERROR])
      by (symmetry; apply replicate_S_end).
    unfold run_steps. rewrite fold_left_app. cbn [fold_left].
    fold (run_steps W H (replicate n GL_NO_ERROR)
            (fst (fst (initializeGrid rand_state rand W H s g)))).
    rewrite computeStep_as_image_of
      by (apply run_steps_wf, Hwf1).
    unfold image_of; simpl. apply Forall_fmap, Forall_forall.
    intros i _. simpl. destruct (rule _ _); auto.
Qed.

(** X13. [initializeGrid] always uploads to texture 0. Called when
    [currentTextureIdx] is 1 it leaves the grid on display as it is and
    fills the scratch texture, which the next step overwrites: the seeding
    is lost, and the next generation is the one it would have been
    without the call. *)
Theorem initializeGrid_at_odd_index_is_lost W H s g :
  wf_state W H s -> currentTextureIdx s = 1 ->
  let s' := fst (fst (initializeGrid rand_state rand W H s g)) in
  current s' = current s /\
  current (fst (computeStep W H GL_NO_ERROR s'))
  = current (fst (computeStep W H GL_NO_ERROR s)).
Proof.
  intros Hwf Hi s'.
  destruct (initializeGrid_fields W H s g) as (_ & Ei & E1 & _).
  assert (Hc : current s' = current s).
  { unfold current, s'. rewrite Ei, Hi. cbn [at2 Z.eqb]. exact E1. }
  split; [exact Hc|].
  rewrite !computeStep_nextGeneration
    by (try apply initializeGrid_wf; exact Hwf).
  fold s'. rewrite Hc. reflexivity.
Qed.

End StartupFacts.


Lemma every_drawn_grid_is_binary_witness :
  wf_state 4 2 (fresh_state 7 9) /\
  img_texels
    (current (run_steps 4 2 (replicate 3 GL_NO_ERROR)
                (fst (fst (initializeGrid Z example_rand 4 2 (fresh_state 7 9)
                             (example_srand 1))))))
  = [0; 0; 0; 0; 0; 0; 0; 0] /\
  Forall (fun v => v = ALIVE \/ v = DEAD)
    (img_texels
       (current (run_steps 4 2 (replicate 3 GL_NO_ERROR)
                   (fst (fst (initializeGrid Z example_rand 4 2
                                (fresh_state 7 9) (example_srand 1))))))).
Proof.
  assert (Hwf : wf_state 4 2 (fresh_state 7 9)) by concrete.
  split; [exact Hwf|]. split; [vm_compute; reflexivity|].
  exact (every_drawn_grid_is_binary Z example_rand 4 2 (fresh_state 7 9)
           (example_srand 1) 3 Hwf eq_refl eq_refl eq_refl).
Defined.

Lemma initializeGrid_at_odd_index_is_lost_witness :
  wf_state 3 3 block_state /\ currentTextureIdx block_state = 1 /\
  current (fst (fst (initializeGrid Z example_rand 3 3 block_state
                       (example_srand 1))))
  = image_of 3 3 (block 3 3 2 2).
Proof.
  assert (Hwf : wf_state 3 3 block_state) by concrete.
  split; [exact Hwf|]. split; [reflexivity|].
  exact (proj1 (initializeGrid_at_odd_index_is_lost Z example_rand 3 3
                  block_state (example_srand 1) Hwf eq_refl)).
Defined.

(** ** The render pipeline *)

(** X14. The four vertices of the strip are the four corners of clip space,
    each one once, and at each of them [TexCoord] is the position moved
    from [[-1, 1]] to [[0, 1]]: vertex [2 cy + cx] is the corner
    [(2 cx - 1, 2 cy - 1)] with texture coordinate [(cx, cy)]. *)
Theorem strip_vertices_are_the_corners id :
  In id strip_vertices ->
  vertex_TexCoord id = (inject_Z (id mod 2), inject_Z (id / 2)) /\
  vertex_Position id
  = (inject_Z (2 * (id mod 2) - 1), inject_Z (2 * (id / 2) - 1)) /\
  fst (interpolated_TexCoord (vertex_Position id))
    == fst (vertex_TexCoord id) /\
  snd (interpolated_TexCoord (vertex_Position id))
    == snd (vertex_TexCoord id) /\
  (forall id', In id' strip_vertices ->
     vertex_Position id' = vertex_Position id -> id' = id).
Proof.
  intros Hin. unfold strip_vertices in *. simpl in Hin.
  assert (Hcases : id = 0 \/ id = 1 \/ id = 2 \/ id = 3) by lia.
  split; [|split; [|split; [|split]]].
  - destruct Hcases as [-> | [-> | [-> | ->]]]; reflexivity.
  - destruct Hcases as [-> | [-> | [-> | ->]]]; reflexivity.
  - destruct Hcases as [-> | [-> | [-> | ->]]]; reflexivity.
  - destruct Hcases as [-> | [-> | [-> | ->]]]; reflexivity.
  - intros id' Hin'. simpl in Hin'.
    assert (Hc' : id' = 0 \/ id' = 1 \/ id' = 2 \/ id' = 3) by lia.
    destruct Hcases as [-> | [-> | [-> | ->]]];
      destruct Hc' as [-> | [-> | [-> | ->]]];
      intros E; try reflexivity; vm_compute in E; discriminate E.
Qed.

Lemma strip_vertices_are_the_corners_witness :
  In 2 strip_vertices /\
  vertex_Position 2 = ((-1)%Q, 1%Q) /\ vertex_TexCoord 2 = (0%Q, 1%Q).
Proof.
  assert (Hin : In 2 strip_vertices) by (simpl; tauto).
  split; [exact Hin|].
  destruct (strip_vertices_are_the_corners 2 Hin) as (Ht & Hp & _).
  split; [exact Hp|exact Ht].
Defined.

Lemma pixel_texel_coordinate n p :
  0 < n -> 0 <= p < n ->
  Qfloor (((2 * (inject_Z p + (1 # 2)) / inject_Z n - 1 + 1) / 2)
          * inject_Z n) mod n = p.
Proof.
  intros Hn Hp.
  assert (Hnz : ~ inject_Z n == 0).
  { unfold inject_Z, Qeq. simpl. lia. }
  assert (E : ((2 * (inject_Z p + (1 # 2)) / inject_Z n - 1 + 1) / 2)
              * inject_Z n == inject_Z p + (1 # 2)) by (field; exact Hnz).
  rewrite E. unfold Qfloor, Qplus, inject_Z. simpl.
  change (Z.pos (1 * 2)) with 2.
  replace (p * 2 + 1 * 1) with (1 + p * 2) by lia.
  rewrite Z.div_add by lia. simpl. apply Z.mod_small. lia.
Qed.

(** X15. The picture is the grid, cell for pixel: on a [W] x [H] viewport
    with a [W] x [H] texture, the colour of pixel [(px, py)] is the grey
    [(v/255, v/255, v/255, 1)] of the byte [v] of texel [(px, py)]; the
    nearest-texel fetch at a pixel's centre never reads a neighbouring
    cell. *)
Theorem pixel_shows_its_cell W H img px py v :
  well_formed img -> img_size img = (W, H) ->
  in_bounds (W, H) (px, py) = true ->
  texel img (px, py) = Some v ->
  pixel_colour W H img px py
  = (unorm8_to_float v, unorm8_to_float v, unorm8_to_float v, 1%Q).
Proof.
  intros [[Hw Hh] _] Hsz Hp Hv. rewrite Hsz in Hw, Hh. simpl in Hw, Hh.
  apply in_bounds_iff in Hp. simpl in Hp.
  unfold pixel_colour, fragment_main, texture_nearest,
    interpolated_TexCoord, pixel_centre.
  rewrite Hsz. cbn [fst snd].
  rewrite (pixel_texel_coordinate W px), (pixel_texel_coordinate H py) by lia.
  unfold imageLoad. rewrite Hv. reflexivity.
Qed.

Lemma pixel_shows_its_cell_witness :
  well_formed (current grey_state) /\
  in_bounds (4, 4) (2, 1) = true /\
  texel (current grey_state) (2, 1) = Some 255 /\
  pixel_colour 4 4 (current grey_state) 2 1
  = (unorm8_to_float 255, unorm8_to_float 255, unorm8_to_float 255, 1%Q).
Proof.
  assert (Hwf : well_formed (current grey_state)) by concrete.
  split; [exact Hwf|]. split; [reflexivity|]. split; [reflexivity|].
  exact (pixel_shows_its_cell 4 4 (current grey_state) 2 1 255
           Hwf eq_refl eq_refl eq_refl).
Defined.

(** * The step with its barrier and the error flag *)

Lemma record_error_clear err : record_error GL_NO_ERROR err = err.
Proof. reflexivity. Qed.

(** On the texels as last written, the finer model is the model above. *)
Lemma computeStep_barrier_backing barriers W H e s :
  wf_sync W H s ->
  backing_state (fst (fst (computeStep_barrier barriers W H e s)))
  = fst (computeStep W H (dispatch_raises e) (backing_state s)).
Proof.
  intros ((Hi & _) & Hv0 & Hv1).
  unfold computeStep, swap, backing_state at 1.
  sync_cases s Hi; change (uint32 (1 - 0)) with 1;
    change (uint32 (1 - 1)) with 0; cbn [at2 set2 Z.eqb fst snd];
    rewrite ?Hv0, ?Hv1;
    destruct (barrier_raises e =? GL_NO_ERROR); reflexivity.
Qed.




(** What a step leaves for the draw: the texture drawn is the texture
    written, its fetch view is brought in step by a barrier with the fetch
    bit and is what it was without. *)
Lemma computeStep_barrier_drawn barriers W H e s :
  wf_sync W H s -> barrier_raises e = GL_NO_ERROR ->
  let before := at2 (sv_memory s) (1 - sv_currentTextureIdx s) in
  let after := drawn_texture (fst (fst (computeStep_barrier barriers W H e s))) in
  backing after
  = current (fst (computeStep W H (dispatch_raises e) (backing_state s))) /\
  fetch_view after
  = (if has_barrier_bit barriers GL_TEXTURE_FETCH_BARRIER_BIT
     then backing after else fetch_view before) /\
  image_view after
  = (if has_barrier_bit barriers GL_SHADER_IMAGE_ACCESS_BARRIER_BIT
     then backing after else image_view before).
Proof.
  intros ((Hi & _) & Hv0 & Hv1) Hb before after. subst before after.
  unfold computeStep, swap, current.
  sync_cases s Hi; change (uint32 (1 - 0)) with 1;
    change (uint32 (1 - 1)) with 0; change (1 - 0) with 1;
    change (1 - 1) with 0;
    cbn [at2 set2 Z.eqb fst snd images currentTextureIdx];
    rewrite Hb, ?Hv0, ?Hv1; cbn [Z.eqb GL_NO_ERROR];
    repeat split.
Qed.

(** The barrier of line 197 serves the next step: after it image loads see
    the texels as last written, in both textures. *)
Lemma computeStep_sync_wf W H e s :
  wf_sync W H s -> barrier_raises e = GL_NO_ERROR ->
  wf_sync W H (fst (fst (computeStep_sync W H e s))).
Proof.
  intros Hwf Hb. pose proof Hwf as (Hws & Hv0 & Hv1).
  split.
  - unfold computeStep_sync. rewrite computeStep_barrier_backing by exact Hwf.
    apply computeStep_wf, Hws.
  - destruct Hws as (Hi & _).
    sync_cases s Hi; rewrite Hb; cbn [Z.eqb GL_NO_ERROR glMemoryBarrier fst snd
      barrier_texture image_view backing]; split; reflexivity.
Qed.

(** Had the barrier carried the fetch bit, as [GL_ALL_BARRIER_BITS] does,
    the draw after a successful step could observe nothing but the
    generation just written. *)
Lemma fetch_barrier_makes_the_step_visible barriers W H e s :
  has_barrier_bit barriers GL_TEXTURE_FETCH_BARRIER_BIT = true ->
  wf_sync W H s ->
  dispatch_raises e = GL_NO_ERROR -> barrier_raises e = GL_NO_ERROR ->
  draw_observes_only
    (drawn_texture (fst (fst (computeStep_barrier barriers W H e s))))
    (nextGeneration (current (backing_state s))).
Proof.
  intros Hbit Hwf Hd Hb pos v.
  destruct (computeStep_barrier_drawn barriers W H e s Hwf Hb) as (Eb & Ef & _).
  rewrite Hbit in Ef. rewrite Hd in Eb.
  rewrite (computeStep_nextGeneration W H _ (proj1 Hwf)) in Eb.
  unfold fetch_may_return. rewrite Ef, Eb. tauto.
Qed.





(** The barrier of line 197 does not have the fetch bit, so a step leaves
    the fetch view of every texture as it found it. *)
Lemma computeStep_sync_leaves_fetch_views W H e s :
  wf_sync W H s ->
  fetch_view (fst (sv_memory (fst (fst (computeStep_sync W H e s)))))
  = fetch_view (fst (sv_memory s)) /\
  fetch_view (snd (sv_memory (fst (fst (computeStep_sync W H e s)))))
  = fetch_view (snd (sv_memory s)).
Proof.
  intros ((Hi & _) & _).
  sync_cases s Hi;
    destruct (barrier_raises e =? GL_NO_ERROR); split; reflexivity.
Qed.

(** C5. The claim fails on the code at the first frame already. The step
    writes the next generation, the vertical blinker, and its barrier is
    issued after the dispatch and before the flip; but the barrier is not a
    full one: it has the image-access bit alone, and the draw reads with
    [texture()]. The fetch view of the texture drawn is still the blank
    texture from before the step, so the fetch of texel [(2, 1)] may return
    the stale 0 where the generation has 255: the draw may observe a grid
    that is not the generation written. With the fetch bit it could not
    ([fetch_barrier_makes_the_step_visible]). *)
Lemma C5_draw_may_fetch_stale_texels :
  wf_sync 5 5 sync_blinker_state /\
  snd (computeStep_sync 5 5 (ComputeEnv GL_NO_ERROR GL_NO_ERROR)
         sync_blinker_state)
  = [EvUseProgram; EvBindImageTexture 0 1 false; EvBindImageTexture 1 2 true;
     EvDispatchCompute 1 1 1; EvGetError GL_NO_ERROR;
     EvMemoryBarrier GL_SHADER_IMAGE_ACCESS_BARRIER_BIT;
     EvAssignCurrentTextureIdx 1] /\
  has_barrier_bit GL_SHADER_IMAGE_ACCESS_BARRIER_BIT
    GL_TEXTURE_FETCH_BARRIER_BIT = false /\
  has_barrier_bit GL_ALL_BARRIER_BITS GL_TEXTURE_FETCH_BARRIER_BIT = true /\
  backing (drawn_texture
             (fst (fst (computeStep_sync 5 5 (ComputeEnv GL_NO_ERROR GL_NO_ERROR)
                          sync_blinker_state))))
  = image_of 5 5 (blinker 5 5 Vertical 2 2) /\
  fetch_view (drawn_texture
                (fst (fst (computeStep_sync 5 5
                             (ComputeEnv GL_NO_ERROR GL_NO_ERROR)
                             sync_blinker_state))))
  = blank 5 5 /\
  texel (image_of 5 5 (blinker 5 5 Vertical 2 2)) (2, 1) = Some ALIVE /\
  fetch_may_return
    (drawn_texture
       (fst (fst (computeStep_sync 5 5 (ComputeEnv GL_NO_ERROR GL_NO_ERROR)
                    sync_blinker_state))))
    (2, 1) DEAD /\
  ~ draw_observes_only
      (drawn_texture
         (fst (fst (computeStep_sync 5 5 (ComputeEnv GL_NO_ERROR GL_NO_ERROR)
                      sync_blinker_state))))
      (nextGeneration (current (backing_state sync_blinker_state))).
Proof.
  split; [concrete|].
  split; [vm_compute; reflexivity|].
  split; [reflexivity|]. split; [reflexivity|].
  split; [vm_compute; reflexivity|].
  split; [vm_compute; reflexivity|].
  split; [vm_compute; reflexivity|].
  split; [left; vm_compute; reflexivity|].
  intros Hall. specialize (Hall (2, 1) DEAD).
  assert (Hstale : texel (nextGeneration (current (backing_state
                            sync_blinker_state))) (2, 1) = Some DEAD)
    by (apply Hall; left; vm_compute; reflexivity).
  vm_compute in Hstale. discriminate Hstale.
Qed.
